(** * RoadSense prediction service: a shallow embedding of [fastapi-backend/app.py]

    The service loads one ONNX model at import time and exposes
    [POST /predict]: the request body is validated against [ModelInput],
    turned into a pandas [DataFrame], projected on six named columns, cast to
    [float32], handed to the ONNX Runtime session and the first output is
    returned as nested lists.

    The numeric engine, the model file and the file system are external: they
    appear as fields of [InferenceSession] and [Env].  Floating-point values
    are the [spec_float] of the Standard Library, binary64 for Python floats
    and binary32 for [np.float32]. *)

From Stdlib Require Import ZArith List String Ascii Bool Lia.
From Stdlib Require Import Floats.SpecFloat.
From stdpp Require Import base option list strings gmap.

Local Open Scope string_scope.
Local Open Scope list_scope.
Local Open Scope stdpp_scope.
Local Open Scope Z_scope.

Set Warnings "-register-all".

(** ** Numbers *)

Module Num.

(** A Python [float] is an IEEE binary64, [np.float32] a binary32. *)
Definition float64 : Type := spec_float.
Definition float32 : Type := spec_float.

Definition prec64 : Z := 53.
Definition emax64 : Z := 1024.
Definition prec32 : Z := 24.
Definition emax32 : Z := 128.

Definition is_float64 (x : spec_float) : bool := valid_binary prec64 emax64 x.
Definition is_float32 (x : spec_float) : bool := valid_binary prec32 emax32 x.

(** [m * 2^e] rounded to nearest-even in binary64: float literals. *)
Definition f64 (m e : Z) : float64 := binary_normalize prec64 emax64 m e false.
Definition f32 (m e : Z) : float32 := binary_normalize prec32 emax32 m e false.

(** The C conversion [double -> float] that [ndarray.astype(np.float32)]
    applies to every element: round to nearest-even, overflow to infinity,
    zeros, infinities and NaN kept. *)
Definition double_to_float (x : float64) : float32 :=
  match x with
  | S754_finite s m e => binary_round prec32 emax32 s m e
  | _ => x
  end.

(** The widening conversion [float -> double] of [ndarray.tolist()]. *)
Definition float_to_double (x : float32) : float64 :=
  match x with
  | S754_finite s m e => binary_round prec64 emax64 s m e
  | _ => x
  end.

(** Conversion of a Python [int] to a double ([int64 -> float64] for an
    integer column upcast by pandas, [float(z)] for an object cell):
    correctly rounded. *)
Definition int_to_double (z : Z) : float64 := f64 z 0.

Definition is_infinity (x : spec_float) : bool :=
  match x with S754_infinity _ => true | _ => false end.

(** The integer a float denotes, when it denotes one. *)
Definition double_to_int_exact (x : float64) : option Z :=
  match x with
  | S754_zero _ => Some 0
  | S754_finite s m e =>
      if 0 <=? e then Some (cond_Zopp s (Z.pos m * 2 ^ e))
      else if (Z.pos m mod 2 ^ (- e)) =? 0
           then Some (cond_Zopp s (Z.pos m / 2 ^ (- e)))
           else None
  | _ => None
  end.

End Num.
Export Num.

(** ** Exceptions *)

(** Instances of [Exception], the class the handler of [predict] catches. *)
Inductive exn : Type :=
| ValueError (msg : string)
| IndexError (msg : string)
| KeyError (msg : string)
| OverflowError (msg : string)
| ValidationError (msg : string)
| EngineError (kind msg : string)
| HTTPException (status_code : Z) (detail : string).

(** [str(e)] *)
Definition str_exn (e : exn) : string :=
  match e with
  | ValueError m | IndexError m | OverflowError m | ValidationError m => m
  | KeyError m => "'" +:+ m +:+ "'"
  | EngineError _ m => m
  | HTTPException _ d => d
  end.

(** ** JSON values and the request schema *)

(** What [json.loads] yields.  The members of an object are kept in wire
    order; [loads_object] builds the [dict]. *)
Inductive json : Type :=
| JNull
| JBool (b : bool)
| JInt (z : Z)
| JFloat (f : float64)
| JStr (s : string)
| JArr (items : list json)
| JObj (members : list (string * json)).

(** A [dict] filled member after member: a later duplicate key overwrites an
    earlier one. *)
Definition loads_object (members : list (string * json)) : gmap string json :=
  foldl (fun d kv => <[kv.1 := kv.2]> d) ∅ members.

(** [class ModelInput(BaseModel)] *)
Record ModelInput : Type := mkModelInput {
  accelerationY : list float64;
  accelerationZ : list float64;
  speedv : list float64;
  unixTimestamp : list Z;
  latitude : list float64;
  longitude : list float64
}.

(** The six field names, in declaration order. *)
Definition model_fields : list string :=
  ["accelerationY"; "accelerationZ"; "speedv"; "unixTimestamp"; "latitude"; "longitude"].

(** Pydantic's coercion of one JSON number to a [float] field and to an
    [int] field: an integer is converted to the nearest double (rejected when
    out of range), a float is an [int] only when it denotes one.  Only JSON
    numbers are covered; whatever else a version of pydantic would coerce is
    refused here. *)
Definition coerce_float (j : json) : option float64 :=
  match j with
  | JInt z => let x := int_to_double z in if is_infinity x then None else Some x
  | JFloat f => Some f
  | _ => None
  end.

Definition coerce_int (j : json) : option Z :=
  match j with
  | JInt z => Some z
  | JFloat f => double_to_int_exact f
  | _ => None
  end.

Definition coerce_list {A : Type} (elt : json -> option A) (j : json) : option (list A) :=
  match j with
  | JArr items => mapM elt items
  | _ => None
  end.

(** One entry of the error list of a failed validation: field and kind. *)
Definition field_error : Type := (string * string)%type.

Definition validate_field {A : Type} (d : gmap string json) (name : string)
    (coerce : json -> option A) : list field_error + A :=
  match d !! name with
  | None => inl [(name, "missing")]
  | Some j =>
      match coerce j with
      | Some x => inr x
      | None => inl [(name, "invalid")]
      end
  end.

Definition errors_of {A : Type} (r : list field_error + A) : list field_error :=
  match r with inl es => es | inr _ => [] end.

(** Validation of a request body against [ModelInput].  Only the six declared
    fields are looked up; all failing fields are reported. *)
Definition ModelInput_validate (d : gmap string json) : list field_error + ModelInput :=
  let ay := validate_field d "accelerationY" (coerce_list coerce_float) in
  let az := validate_field d "accelerationZ" (coerce_list coerce_float) in
  let sv := validate_field d "speedv" (coerce_list coerce_float) in
  let ts := validate_field d "unixTimestamp" (coerce_list coerce_int) in
  let la := validate_field d "latitude" (coerce_list coerce_float) in
  let lo := validate_field d "longitude" (coerce_list coerce_float) in
  match ay, az, sv, ts, la, lo with
  | inr a, inr b, inr c, inr t, inr e, inr f => inr (mkModelInput a b c t e f)
  | _, _, _, _, _, _ =>
      inl (errors_of ay ++ errors_of az ++ errors_of sv ++ errors_of ts
             ++ errors_of la ++ errors_of lo)
  end.

Definition parse_body (body : json) : list field_error + ModelInput :=
  match body with
  | JObj members => ModelInput_validate (loads_object members)
  | _ => inl [("body", "model_attributes_type")]
  end.

(** ** pandas and numpy *)

(** A column of a [DataFrame] built from a Python list: floats or ints. *)
Inductive column : Type :=
| FloatCol (xs : list float64)
| IntCol (zs : list Z).

Definition column_length (c : column) : nat :=
  match c with
  | FloatCol xs => length xs
  | IntCol zs => length zs
  end.

(** A cell of [DataFrame.values]. *)
Inductive cell : Type :=
| CFloat (x : float64)
| CInt (z : Z).

Definition column_cells (c : column) : list cell :=
  match c with
  | FloatCol xs => map CFloat xs
  | IntCol zs => map CInt zs
  end.

(** Columns in insertion order; every column has [nrows] entries. *)
Record DataFrame : Type := mkDataFrame {
  df_columns : list (string * column);
  nrows : nat
}.

Definition all_same_length (cols : list (string * column)) : bool :=
  match cols with
  | [] => true
  | (_, c) :: rest =>
      forallb (fun kc => Nat.eqb (column_length kc.2) (column_length c)) rest
  end.

(** [pd.DataFrame(data)] for a dict of lists. *)
Definition DataFrame_new (data : list (string * column)) : exn + DataFrame :=
  if all_same_length data then
    inr (mkDataFrame data
           (match data with [] => 0%nat | (_, c) :: _ => column_length c end))
  else inl (ValueError "All arrays must be of the same length").

Fixpoint assoc_lookup {A : Type} (k : string) (l : list (string * A)) : option A :=
  match l with
  | [] => None
  | (k', v) :: rest => if String.eqb k k' then Some v else assoc_lookup k rest
  end.

(** [df[names]]: the named columns, in the order of [names]. *)
Fixpoint select_columns (cols : list (string * column)) (names : list string)
    : exn + list (string * column) :=
  match names with
  | [] => inr []
  | n :: rest =>
      match assoc_lookup n cols with
      | None => inl (KeyError n)
      | Some c =>
          match select_columns cols rest with
          | inl e => inl e
          | inr cs => inr ((n, c) :: cs)
          end
      end
  end.

Definition DataFrame_getitem (df : DataFrame) (names : list string) : exn + DataFrame :=
  match select_columns (df_columns df) names with
  | inl e => inl e
  | inr cs => inr (mkDataFrame cs (nrows df))
  end.

(** [df.values]: row [i] holds entry [i] of every column, in column order. *)
Definition row_at (cols : list (list cell)) (i : nat) : list cell :=
  omap (fun c => c !! i) cols.

Definition DataFrame_values (df : DataFrame) : list (list cell) :=
  map (row_at (map (fun kc => column_cells kc.2) (df_columns df))) (seq 0 (nrows df)).

(** A rank-2 [float32] array, row by row. *)
Abbreviation matrix := (list (list float32)).

(** Conversion of one cell by [astype(np.float32)].  An integer goes through
    a double; one too large for a double raises. *)
Definition cell_to_float32 (c : cell) : exn + float32 :=
  match c with
  | CFloat x => inr (double_to_float x)
  | CInt z =>
      let x := int_to_double z in
      if is_infinity x then inl (OverflowError "int too large to convert to float")
      else inr (double_to_float x)
  end.

Fixpoint traverse {A B : Type} (f : A -> exn + B) (l : list A) : exn + list B :=
  match l with
  | [] => inr []
  | a :: rest =>
      match f a with
      | inl e => inl e
      | inr b =>
          match traverse f rest with
          | inl e => inl e
          | inr bs => inr (b :: bs)
          end
      end
  end.

Definition astype_float32 (vals : list (list cell)) : exn + matrix :=
  traverse (traverse cell_to_float32) vals.

(** An output array of the engine of any rank, and [ndarray.tolist()]. *)
Inductive ndarray : Type :=
| NdFloat (x : float32)
| NdInt (z : Z)
| NdArr (items : list ndarray).

Fixpoint tolist (a : ndarray) : json :=
  match a with
  | NdFloat x => JFloat (float_to_double x)
  | NdInt z => JInt z
  | NdArr items => JArr (map tolist items)
  end.

(** Number of entries along the first axis, and entry [i]. *)
Definition nd_rows (a : ndarray) : list ndarray :=
  match a with
  | NdArr items => items
  | _ => []
  end.

(** ** ONNX Runtime *)

Inductive ExecutionMode : Type := ORT_SEQUENTIAL | ORT_PARALLEL.

Record SessionOptions : Type := mkSessionOptions {
  inter_op_num_threads : Z;
  intra_op_num_threads : Z;
  execution_mode : ExecutionMode
}.

(** [rt.SessionOptions()]: thread counts 0 let the runtime choose. *)
Definition SessionOptions_new : SessionOptions :=
  mkSessionOptions 0 0 ORT_SEQUENTIAL.

Definition set_inter_op_num_threads (n : Z) (o : SessionOptions) : SessionOptions :=
  mkSessionOptions n (intra_op_num_threads o) (execution_mode o).

Definition set_intra_op_num_threads (n : Z) (o : SessionOptions) : SessionOptions :=
  mkSessionOptions (inter_op_num_threads o) n (execution_mode o).

Definition set_execution_mode (m : ExecutionMode) (o : SessionOptions) : SessionOptions :=
  mkSessionOptions (inter_op_num_threads o) (intra_op_num_threads o) m.

Record NodeArg : Type := mkNodeArg { name : string }.

(** The input feed of one [run] call: input name and array. *)
Abbreviation feeds := (list (string * matrix)).

(** A loaded model: the engine is a function from feeds to outputs. *)
Record InferenceSession : Type := mkInferenceSession {
  get_inputs : list NodeArg;
  run : option (list string) -> feeds -> exn + list ndarray
}.

(** ** Module state and the effects of a handler *)

Inductive route : Type :=
| POST_predict
| GET_root.

(** The module-level names of [app.py] once the module has been executed. *)
Record Globals : Type := mkGlobals {
  app : list route;
  session_options : SessionOptions;
  model_directory : string;
  onnx_model_path : string;
  sess : InferenceSession
}.

(** The state a handler runs in: the module globals and the record of the
    feeds given to [sess.run] so far. *)
Record World : Type := mkWorld {
  globals : Globals;
  run_log : list feeds
}.

(** A computation that may raise and may touch the world. *)
Definition Py (A : Type) : Type := World -> (exn + A) * World.

#[export] Instance Py_ret : MRet Py := fun A (a : A) (w : World) => (inr a, w).

#[export] Instance Py_bind : MBind Py :=
  fun A B (k : A -> Py B) (m : Py A) (w : World) =>
    match m w with
    | (inl e, w') => (inl e, w')
    | (inr a, w') => k a w'
    end.

Definition raise {A : Type} (e : exn) : Py A := fun w => (inl e, w).

(** A pure step that may raise. *)
Definition lift {A : Type} (r : exn + A) : Py A := fun w => (r, w).

(** [try: body except Exception as e: handler(e)] *)
Definition try_except {A : Type} (body : Py A) (handler : exn -> Py A) : Py A :=
  fun w =>
    match body w with
    | (inl e, w') => handler e w'
    | (inr a, w') => (inr a, w')
    end.

(** Reading the global [sess]. *)
Definition global_sess : Py InferenceSession := fun w => (inr (sess (globals w)), w).

(** [s.run(output_names, input_feed)]: the call is recorded, the engine
    answers. *)
Definition call_run (s : InferenceSession) (output_names : option (list string))
    (input_feed : feeds) : Py (list ndarray) :=
  fun w => (run s output_names input_feed,
            mkWorld (globals w) (run_log w ++ [input_feed])).

(** [l[0]] *)
Definition getitem0 {A : Type} (l : list A) : exn + A :=
  match l with
  | [] => inl (IndexError "list index out of range")
  | a :: _ => inr a
  end.

(** ** The [/predict] handler *)

Definition required_columns : list string :=
  ["accelerationY"; "accelerationZ"; "speedv"; "unixTimestamp"; "latitude"; "longitude"].

(** The dict literal given to [pd.DataFrame]. *)
Definition frame_data (input : ModelInput) : list (string * column) :=
  [("accelerationY", FloatCol (accelerationY input));
   ("accelerationZ", FloatCol (accelerationZ input));
   ("speedv", FloatCol (speedv input));
   ("unixTimestamp", IntCol (unixTimestamp input));
   ("latitude", FloatCol (latitude input));
   ("longitude", FloatCol (longitude input))].

(** Lines 106-117: the feature matrix. *)
Definition assemble (input : ModelInput) : exn + matrix :=
  match DataFrame_new (frame_data input) with
  | inl e => inl e
  | inr input_data =>
      match DataFrame_getitem input_data required_columns with
      | inl e => inl e
      | inr selected => astype_float32 (DataFrame_values selected)
      end
  end.

(** The body of the [try] block. *)
Definition predict_body (input : ModelInput) : Py json :=
  input_data ← lift (assemble input);
  s ← global_sess;
  first_input ← lift (getitem0 (get_inputs s));
  let input_name := name first_input in
  s' ← global_sess;
  outputs ← call_run s' None [(input_name, input_data)];
  predictions ← lift (getitem0 outputs);
  mret (JObj [("predictions", tolist predictions)]).

Definition predict (input : ModelInput) : Py json :=
  try_except (predict_body input)
    (fun e => raise (HTTPException 500 ("Prediction error: " +:+ str_exn e))).

(** [GET /] *)
Definition root : json := JObj [("message", JStr "ONNX Model Prediction API")].

(** ** [os.path] on a POSIX system *)

Module posixpath.

Definition slash : ascii := "/"%char.

Definition startswith_slash (s : string) : bool :=
  match s with
  | String c _ => Ascii.eqb c slash
  | EmptyString => false
  end.

Fixpoint endswith_slash (s : string) : bool :=
  match s with
  | EmptyString => false
  | String c EmptyString => Ascii.eqb c slash
  | String _ rest => endswith_slash rest
  end.

Definition isabs (s : string) : bool := startswith_slash s.

(** [a.split('/')] *)
Fixpoint split (s : string) : list string :=
  match s with
  | EmptyString => [EmptyString]
  | String c rest =>
      if Ascii.eqb c slash then EmptyString :: split rest
      else match split rest with
           | [] => [String c EmptyString]
           | h :: t => String c h :: t
           end
  end.

(** ['/'.join(comps)] *)
Fixpoint join_slash (comps : list string) : string :=
  match comps with
  | [] => EmptyString
  | [c] => c
  | c :: rest => c +:+ String slash (join_slash rest)
  end.

(** [os.path.join(a, b)] *)
Definition join (a b : string) : string :=
  if startswith_slash b then b
  else if String.eqb a EmptyString || endswith_slash a then a +:+ b
  else a +:+ String slash b.

(** One turn of the loop of [normpath] over the components. *)
Definition normpath_step (initial_slashes : nat) (new_comps : list string) (comp : string)
    : list string :=
  if String.eqb comp "" || String.eqb comp "." then new_comps
  else if negb (String.eqb comp "..")
          || (Nat.eqb initial_slashes 0 && bool_decide (new_comps = []))
          || match last new_comps with
             | Some l => String.eqb l ".."
             | None => false
             end
       then new_comps ++ [comp]
       else removelast new_comps.

Fixpoint slashes (n : nat) : string :=
  match n with
  | O => EmptyString
  | S k => String slash (slashes k)
  end.

(** POSIX keeps exactly two leading slashes, and folds three or more. *)
Definition initial_slashes_of (path : string) : nat :=
  match path with
  | String c1 (String c2 (String c3 _)) =>
      if Ascii.eqb c1 slash then
        if Ascii.eqb c2 slash && negb (Ascii.eqb c3 slash) then 2%nat else 1%nat
      else 0%nat
  | String c1 (String c2 EmptyString) =>
      if Ascii.eqb c1 slash then (if Ascii.eqb c2 slash then 2%nat else 1%nat) else 0%nat
  | String c1 EmptyString => if Ascii.eqb c1 slash then 1%nat else 0%nat
  | EmptyString => 0%nat
  end.

Definition normpath (path : string) : string :=
  if String.eqb path "" then "."
  else
    let initial_slashes := initial_slashes_of path in
    let comps := foldl (normpath_step initial_slashes) [] (split path) in
    let path' := slashes initial_slashes +:+ join_slash comps in
    if String.eqb path' "" then "." else path'.

(** [os.path.abspath(path)] in a process whose working directory is [cwd]. *)
Definition abspath (cwd path : string) : string :=
  if isabs path then normpath path else normpath (join cwd path).

(** [p[:p.rfind('/') + 1]] *)
Fixpoint head_part (p : string) : string :=
  match p with
  | EmptyString => EmptyString
  | String c rest =>
      let r := head_part rest in
      if Ascii.eqb c slash || negb (String.eqb r EmptyString) then String c r
      else EmptyString
  end.

Fixpoint all_slashes (s : string) : bool :=
  match s with
  | EmptyString => true
  | String c rest => Ascii.eqb c slash && all_slashes rest
  end.

(** [s.rstrip('/')] *)
Fixpoint rstrip_slashes (s : string) : string :=
  match s with
  | EmptyString => EmptyString
  | String c rest =>
      let r := rstrip_slashes rest in
      if Ascii.eqb c slash && String.eqb r EmptyString then EmptyString
      else String c r
  end.

(** [os.path.dirname(p)] *)
Definition dirname (p : string) : string :=
  let head := head_part p in
  if negb (String.eqb head EmptyString) && negb (all_slashes head)
  then rstrip_slashes head
  else head.

End posixpath.

(** ** Startup: the module-level statements of [app.py] *)

(** What the module finds around it when it is executed. *)
Record Env : Type := mkEnv {
  module_file : string;   (* [__file__] *)
  getcwd : string;        (* [os.getcwd()] *)
  InferenceSession_new : string -> SessionOptions -> exn + InferenceSession
}.

(** A process whose import raised is gone; otherwise it serves. *)
Inductive process : Type :=
| Crashed (e : exn) (stdout : list string)
| Up (w : World).

(** Lines 77-80. *)
Definition configured_options : SessionOptions :=
  let session_options := SessionOptions_new in
  let session_options := set_inter_op_num_threads 1 session_options in
  let session_options := set_intra_op_num_threads 1 session_options in
  set_execution_mode ORT_SEQUENTIAL session_options.

(** Lines 83-84. *)
Definition resolve_model_directory (env : Env) : string :=
  posixpath.dirname (posixpath.abspath (getcwd env) (module_file env)).

Definition resolve_onnx_model_path (env : Env) : string :=
  posixpath.join (resolve_model_directory env) "xgb_model.onnx".

(** Lines 74-131.  The routes are registered by the decorators that follow
    the load. *)
Definition startup (env : Env) : process :=
  let session_options := configured_options in
  let model_directory := resolve_model_directory env in
  let onnx_model_path := posixpath.join model_directory "xgb_model.onnx" in
  match InferenceSession_new env onnx_model_path session_options with
  | inl e => Crashed e ["Failed to load ONNX model: " +:+ str_exn e]
  | inr s =>
      Up (mkWorld
            (mkGlobals [POST_predict; GET_root] session_options model_directory
               onnx_model_path s)
            [])
  end.

(** ** The framework around the handlers *)

Inductive request : Type :=
| PostPredict (body : json)
| GetRoot.

Record http_response : Type := mkResponse {
  status : Z;
  content : json
}.

Definition internal_server_error : http_response :=
  mkResponse 500 (JStr "Internal Server Error").

Definition not_found : http_response :=
  mkResponse 404 (JObj [("detail", JStr "Not Found")]).

(** The JSON encoder of the framework refuses NaN and the infinities. *)
Fixpoint json_compliant (j : json) : bool :=
  match j with
  | JFloat (S754_nan | S754_infinity _) => false
  | JArr items => forallb json_compliant items
  | JObj members => forallb (fun kv => json_compliant (snd kv)) members
  | _ => true
  end.

Definition error_json (fe : field_error) : json :=
  JObj [("loc", JArr [JStr "body"; JStr fe.1]); ("type", JStr fe.2)].

(** What the caller gets from the result of a handler. *)
Definition respond (r : exn + json) : http_response :=
  match r with
  | inr c => if json_compliant c then mkResponse 200 c else internal_server_error
  | inl (HTTPException s d) => mkResponse s (JObj [("detail", JStr d)])
  | inl _ => internal_server_error
  end.

Definition route_eqb (a b : route) : bool :=
  match a, b with
  | POST_predict, POST_predict | GET_root, GET_root => true
  | _, _ => false
  end.

Definition registered (r : route) (w : World) : bool :=
  existsb (route_eqb r) (app (globals w)).

(** One request against a running process. *)
Definition handle (req : request) (w : World) : http_response * World :=
  match req with
  | PostPredict body =>
      if registered POST_predict w then
        match parse_body body with
        | inl errs => (mkResponse 422 (JObj [("detail", JArr (map error_json errs))]), w)
        | inr input => let '(r, w') := predict input w in (respond r, w')
        end
      else (not_found, w)
  | GetRoot =>
      if registered GET_root w then (respond (inr root), w) else (not_found, w)
  end.

(** A crashed process answers nothing. *)
Definition serve (p : process) (req : request) : option http_response * process :=
  match p with
  | Crashed _ _ => (None, p)
  | Up w => let '(resp, w') := handle req w in (Some resp, Up w')
  end.

Fixpoint serve_all (p : process) (reqs : list request)
    : list (option http_response) * process :=
  match reqs with
  | [] => ([], p)
  | req :: rest =>
      let '(resp, p') := serve p req in
      let '(resps, p'') := serve_all p' rest in
      (resp :: resps, p'')
  end.

(** The life of the service: import the module, then take requests. *)
Definition service (env : Env) (reqs : list request)
    : list (option http_response) * process :=
  serve_all (startup env) reqs.

(** ** Vocabulary of the statements *)

(** The six sequences have one length. *)
Definition aligned (input : ModelInput) : Prop :=
  length (accelerationZ input) = length (accelerationY input) /\
  length (speedv input) = length (accelerationY input) /\
  length (unixTimestamp input) = length (accelerationY input) /\
  length (latitude input) = length (accelerationY input) /\
  length (longitude input) = length (accelerationY input).

(** Observation [i] of a request: entry [i] of each sequence. *)
Record observation : Type := mkObservation {
  obs_accelerationY : float64;
  obs_accelerationZ : float64;
  obs_speedv : float64;
  obs_unixTimestamp : Z;
  obs_latitude : float64;
  obs_longitude : float64
}.

Definition observation_at (input : ModelInput) (i : nat) : option observation :=
  a ← accelerationY input !! i;
  b ← accelerationZ input !! i;
  c ← speedv input !! i;
  t ← unixTimestamp input !! i;
  e ← latitude input !! i;
  f ← longitude input !! i;
  Some (mkObservation a b c t e f).

(** The row of the feature matrix an observation stands for: the six values
    in the order of the columns, each converted and nothing else. *)
Definition feature_row (o : observation) : list float32 :=
  [double_to_float (obs_accelerationY o);
   double_to_float (obs_accelerationZ o);
   double_to_float (obs_speedv o);
   double_to_float (int_to_double (obs_unixTimestamp o));
   double_to_float (obs_latitude o);
   double_to_float (obs_longitude o)].


(** ** A model and an installation to run the definitions on *)

Definition sample_output (row : list float32) : ndarray :=
  NdArr [NdFloat (hd (S754_zero false) row)].

Definition sample_run (output_names : option (list string)) (input_feed : feeds)
    : exn + list ndarray :=
  match input_feed with
  | [(n, M)] =>
      if String.eqb n "float_input" then inr [NdArr (map sample_output M)]
      else inl (EngineError "INVALID_ARGUMENT" "Invalid input name")
  | _ => inl (EngineError "INVALID_ARGUMENT" "Invalid input feed")
  end.

Definition sample_session : InferenceSession :=
  mkInferenceSession [mkNodeArg "float_input"] sample_run.

Definition sample_loader (path : string) (o : SessionOptions) : exn + InferenceSession :=
  if String.eqb path "/srv/roadsense/fastapi-backend/xgb_model.onnx" then inr sample_session
  else inl (EngineError "NO_SUCHFILE" ("Load model from " +:+ path +:+ " failed"))%string.

Definition sample_env : Env :=
  mkEnv "/srv/roadsense/fastapi-backend/app.py" "/home/user" sample_loader.

(** The same code launched from its own directory by a relative name. *)
Definition sample_env_relative : Env :=
  mkEnv "app.py" "/srv/roadsense/fastapi-backend" sample_loader.

(** An installation whose model file is missing. *)
Definition broken_env : Env :=
  mkEnv "/opt/empty/app.py" "/home/user" sample_loader.

Definition sample_globals : Globals :=
  mkGlobals [POST_predict; GET_root] configured_options
    "/srv/roadsense/fastapi-backend" "/srv/roadsense/fastapi-backend/xgb_model.onnx"
    sample_session.

Definition sample_world : World := mkWorld sample_globals [].

(** The request of the specification's scenario. *)
Definition scenario_members : list (string * json) :=
  [("accelerationY", JArr [JFloat (f64 1 0)]);
   ("accelerationZ", JArr [JFloat (f64 2 0)]);
   ("speedv", JArr [JFloat (f64 3 0)]);
   ("unixTimestamp", JArr [JInt 1000]);
   ("latitude", JArr [JFloat (f64 21 (-1))]);
   ("longitude", JArr [JFloat (f64 41 (-1))])].

Definition scenario_input : ModelInput :=
  mkModelInput [f64 1 0] [f64 2 0] [f64 3 0] [1000] [f64 21 (-1)] [f64 41 (-1)].

(** Three accelerations against two latitudes. *)
Definition mismatched_input : ModelInput :=
  mkModelInput [f64 1 0; f64 2 0; f64 3 0] [f64 1 0; f64 2 0; f64 3 0]
    [f64 1 0; f64 2 0; f64 3 0] [1000; 1001; 1002]
    [f64 21 (-1); f64 21 (-1)] [f64 41 (-1); f64 41 (-1); f64 41 (-1)].

(** ** Vocabulary of the further properties *)

(** The request object a client sends for a given input: every sequence as a
    JSON array of numbers under its field name. *)
Definition body_members (input : ModelInput) : list (string * json) :=
  [("accelerationY", JArr (JFloat <$> accelerationY input));
   ("accelerationZ", JArr (JFloat <$> accelerationZ input));
   ("speedv", JArr (JFloat <$> speedv input));
   ("unixTimestamp", JArr (JInt <$> unixTimestamp input));
   ("latitude", JArr (JFloat <$> latitude input));
   ("longitude", JArr (JFloat <$> longitude input))].

(** A request without observations. *)
Definition empty_input : ModelInput := mkModelInput [] [] [] [] [] [].

(** One observation whose timestamp no double can hold. *)
Definition oversized_input : ModelInput :=
  mkModelInput [f64 1 0] [f64 2 0] [f64 3 0] [2 ^ 1024] [f64 21 (-1)] [f64 41 (-1)].

(** A session of a model that declares no input. *)
Definition inputless_session : InferenceSession :=
  mkInferenceSession [] sample_run.

Definition inputless_world : World :=
  mkWorld (mkGlobals [POST_predict; GET_root] configured_options
             "/srv/roadsense/fastapi-backend"
             "/srv/roadsense/fastapi-backend/xgb_model.onnx" inputless_session) [].

(** * Properties *)

(** ** Sanity checks of the path functions *)

Example normpath_ex1 : posixpath.normpath "/srv//app/./x/../app.py" = "/srv/app/app.py".
Proof. vm_compute. reflexivity. Qed.
Example normpath_ex2 : posixpath.normpath "//a/../../b" = "//b".
Proof. vm_compute. reflexivity. Qed.
Example normpath_ex3 : posixpath.normpath "a/../.." = "..".
Proof. vm_compute. reflexivity. Qed.
Example abspath_ex1 : posixpath.abspath "/home/u" "fastapi-backend/app.py" = "/home/u/fastapi-backend/app.py".
Proof. vm_compute. reflexivity. Qed.
Example dirname_ex1 : posixpath.dirname "/home/u/fastapi-backend/app.py" = "/home/u/fastapi-backend".
Proof. vm_compute. reflexivity. Qed.
Example dirname_ex2 : posixpath.dirname "/app.py" = "/".
Proof. vm_compute. reflexivity. Qed.
Example dirname_ex3 : posixpath.dirname "app.py" = "".
Proof. vm_compute. reflexivity. Qed.
Example dirname_ex4 : posixpath.dirname "/a//b" = "/a".
Proof. vm_compute. reflexivity. Qed.

(** ** Rounding to a binary format

    [binary_round] always lands in the format it rounds to, leaves the values
    of that format alone, and overflows only from large exponents. *)

Section Rounding.
Variables prec emax : Z.
Hypothesis Hprec : 0 < prec.


Lemma digits2_pos_size p : digits2_pos p = Pos.size p.
Proof. induction p; simpl; congruence. Qed.

Lemma Zdigits2_log2 m : 0 < m -> Zdigits2 m = Z.log2 m + 1.
Proof.
  destruct m as [|p|p]; try lia. intros _. simpl. rewrite digits2_pos_size.
  destruct p; simpl; lia.
Qed.

Lemma fexp_ge_emin x : emin prec emax <= fexp prec emax x.
Proof. unfold SpecFloat.fexp. lia. Qed.

Lemma fexp_succ x : fexp prec emax (x + 1) = fexp prec emax x \/ fexp prec emax (x + 1) = fexp prec emax x + 1.
Proof. unfold SpecFloat.fexp. lia. Qed.

Lemma fexp_small x : x <= fexp prec emax x -> fexp prec emax x = emin prec emax.
Proof. unfold SpecFloat.fexp. lia. Qed.

Lemma fexp_one_emin : fexp prec emax (1 + emin prec emax) = emin prec emax.
Proof. unfold SpecFloat.fexp. lia. Qed.

Lemma shr_1_m mrs : 0 <= shr_m mrs -> shr_m (shr_1 mrs) = Z.div2 (shr_m mrs).
Proof.
  destruct mrs as [m r s]. simpl. destruct m as [|[p|p|]|p]; simpl; try reflexivity; lia.
Qed.

Lemma iter_shr_1_m p : forall mrs, 0 <= shr_m mrs ->
  shr_m (SpecFloat.iter_pos shr_1 p mrs) = Z.shiftr (shr_m mrs) (Z.pos p).
Proof.
  induction p as [p IH|p IH|]; intros mrs Hm; simpl SpecFloat.iter_pos.
  - assert (H1 : 0 <= shr_m (shr_1 mrs)) by (rewrite shr_1_m by lia; rewrite Z.div2_spec; apply Z.shiftr_nonneg; lia).
    assert (H2 : 0 <= shr_m (SpecFloat.iter_pos shr_1 p (shr_1 mrs))) by (rewrite IH by lia; apply Z.shiftr_nonneg; lia).
    rewrite IH, IH, shr_1_m by lia. rewrite Z.div2_spec.
    rewrite !Z.shiftr_shiftr by lia. f_equal. lia.
  - assert (H2 : 0 <= shr_m (SpecFloat.iter_pos shr_1 p mrs)) by (rewrite IH by lia; apply Z.shiftr_nonneg; lia).
    rewrite IH, IH by lia. rewrite !Z.shiftr_shiftr by lia. f_equal. lia.
  - rewrite shr_1_m by lia. apply Z.div2_spec.
Qed.

Lemma shr_m_shift mrs e n : 0 <= shr_m mrs ->
  shr_m (fst (shr mrs e n)) = Z.shiftr (shr_m mrs) (Z.max 0 n) /\ snd (shr mrs e n) = e + Z.max 0 n.
Proof.
  intros Hm. destruct n as [|p|p]; simpl.
  - rewrite Z.shiftr_0_r. lia.
  - rewrite iter_shr_1_m by lia. split; reflexivity.
  - rewrite Z.shiftr_0_r. lia.
Qed.

Lemma shr_record_of_loc_m m l : shr_m (shr_record_of_loc m l) = m.
Proof. destruct l as [|[]]; reflexivity. Qed.

(** Shifting a nonnegative mantissa up to its exponent. *)
Lemma shr_fexp_spec m e l : 0 <= m ->
  let r := shr_fexp prec emax m e l in
  let n := Z.max 0 (fexp prec emax (Zdigits2 m + e) - e) in
  shr_m (fst r) = Z.shiftr m n /\ snd r = e + n.
Proof.
  intros Hm. unfold shr_fexp. cbv zeta.
  pose proof (shr_m_shift (shr_record_of_loc m l) e (fexp prec emax (Zdigits2 m + e) - e)) as H.
  rewrite shr_record_of_loc_m in H. apply H. exact Hm.
Qed.

Lemma Zdigits2_shiftr m n : 0 < m -> 0 <= n ->
  (Z.shiftr m n = 0 /\ Zdigits2 m <= n) \/
  (0 < Z.shiftr m n /\ Zdigits2 (Z.shiftr m n) = Zdigits2 m - n).
Proof.
  intros Hm Hn. rewrite (Zdigits2_log2 m) by lia.
  destruct (Z.le_gt_cases n (Z.log2 m)) as [Hle|Hgt].
  - right. assert (0 < Z.shiftr m n).
    { rewrite Z.shiftr_div_pow2 by lia.
      apply Z.div_str_pos. split. apply Z.pow_pos_nonneg; lia.
      transitivity (2 ^ Z.log2 m). apply Z.pow_le_mono_r; lia. apply Z.log2_spec. lia. }
    split; [assumption|]. rewrite Zdigits2_log2 by lia.
    rewrite Z.log2_shiftr by lia. lia.
  - left. split; [|lia]. apply Z.shiftr_eq_0; lia.
Qed.

Lemma round_nearest_even_cases m l : round_nearest_even m l = m \/ round_nearest_even m l = m + 1.
Proof. destruct l as [|[]]; simpl; auto. destruct (Z.even m); auto. Qed.

Lemma Zdigits2_succ m : 0 < m ->
  Zdigits2 (m + 1) = Zdigits2 m \/
  (Zdigits2 (m + 1) = Zdigits2 m + 1 /\ Zdigits2 (Z.shiftr (m + 1) 1) = Zdigits2 m /\ 0 < Z.shiftr (m + 1) 1).
Proof.
  intros Hm. rewrite !Zdigits2_log2 by lia.
  destruct (Z.log2_succ_or m) as [H|H]; unfold Z.succ in H; [right|left; lia].
  split; [lia|].
  destruct (Z.log2_eq_succ_is_pow2 m H) as [b Hb]. unfold Z.succ in Hb.
  assert (0 < b). { destruct (Z.le_gt_cases b 0); [|assumption]. exfalso.
    destruct (Z.eq_dec b 0). subst. simpl in Hb. lia.
    rewrite Z.pow_neg_r in Hb by lia. lia. }
  assert (Hs : Z.shiftr (m + 1) 1 = 2 ^ (b - 1)).
  { rewrite Hb, Z.shiftr_div_pow2 by lia. rewrite <- Z.pow_sub_r by lia. reflexivity. }
  assert (0 < 2 ^ (b - 1)) by (apply Z.pow_pos_nonneg; lia).
  rewrite Hs. split; [|assumption]. rewrite Zdigits2_log2 by assumption.
  rewrite Z.log2_pow2 by lia.
  assert (Z.log2 (m + 1) = b) by (rewrite Hb; apply Z.log2_pow2; lia). lia.
Qed.


Lemma binary_round_aux_cases sx mx ex lx :
  0 < mx -> ex <= fexp prec emax (Zdigits2 mx + ex) ->
  let r := binary_round_aux prec emax sx mx ex lx in
  r = S754_zero sx \/
  (exists m e, r = S754_finite sx m e /\ bounded prec emax m e = true) \/
  (r = S754_infinity sx /\ emax - prec < fexp prec emax (Zdigits2 mx + ex) + 1).
Proof.
  intros Hm Hinv. cbv zeta. unfold binary_round_aux.
  pose proof (shr_fexp_spec mx ex lx ltac:(lia)) as H1. cbv zeta in H1.
  destruct (shr_fexp prec emax mx ex lx) as [mrs1 e1]. simpl in H1.
  destruct H1 as [Hm1 He1].
  rewrite Z.max_r in Hm1, He1 by lia.
  set (D := Zdigits2 mx + ex) in *.
  assert (He1' : e1 = fexp prec emax D) by lia. clear He1.
  set (m1 := round_nearest_even (shr_m mrs1) (loc_of_shr_record mrs1)).
  assert (Hm1nn : 0 <= shr_m mrs1) by (rewrite Hm1; apply Z.shiftr_nonneg; lia).
  assert (Hr : m1 = shr_m mrs1 \/ m1 = shr_m mrs1 + 1) by apply round_nearest_even_cases.
  assert (Hm1' : 0 <= m1) by lia.
  clearbody m1.
  pose proof (shr_fexp_spec m1 e1 loc_Exact Hm1') as H2. cbv zeta in H2.
  destruct (shr_fexp prec emax m1 e1 loc_Exact) as [mrs2 e2]. simpl in H2.
  destruct H2 as [Hm2 He2].
  (* the rounded mantissa and its exponent are canonical, or the mantissa is 0 *)
  assert (Hcan : shr_m mrs2 = 0 \/
                 (0 < shr_m mrs2 /\ fexp prec emax (Zdigits2 (shr_m mrs2) + e2) = e2 /\ e2 <= fexp prec emax D + 1)).
  { pose proof (fexp_ge_emin D) as Hge.
    destruct (Zdigits2_shiftr mx (fexp prec emax D - ex) Hm ltac:(lia)) as [[Hz Hd]|[Hp Hd]];
      rewrite <- Hm1 in *.
    - (* everything was shifted out *)
      assert (HD : fexp prec emax D = emin prec emax) by (apply fexp_small; unfold D in *; lia).
      destruct Hr as [E|E]; rewrite Hz in E.
      + left. rewrite Hm2, E. apply Z.shiftr_0_l.
      + right. simpl in E. rewrite E in *. simpl Zdigits2 in *.
        assert (Hf : fexp prec emax (1 + e1) = e1) by (rewrite He1', HD; apply fexp_one_emin).
        rewrite Hf, Z.sub_diag, Z.max_id in Hm2, He2. rewrite Z.shiftr_0_r in Hm2.
        rewrite Hm2. simpl Zdigits2. replace e2 with e1 by lia. split; [lia|]. split; [exact Hf|lia].
    - right.
      assert (Hc1 : fexp prec emax (Zdigits2 (shr_m mrs1) + e1) = e1) by (rewrite Hd, He1'; f_equal; unfold D; lia).
      destruct Hr as [E|E].
      + rewrite E in *. rewrite Hc1, Z.sub_diag, Z.max_id in Hm2, He2.
        rewrite Z.shiftr_0_r in Hm2. rewrite Hm2. replace e2 with e1 by lia.
        split; [lia|]. split; [exact Hc1|lia].
      + rewrite E in *.
        destruct (Zdigits2_succ (shr_m mrs1) Hp) as [Hs|(Hs & Hs2 & Hs3)].
        * rewrite Hs, Hc1, Z.sub_diag, Z.max_id in Hm2, He2.
          rewrite Z.shiftr_0_r in Hm2. rewrite Hm2, Hs. replace e2 with e1 by lia.
          split; [lia|]. split; [exact Hc1|lia].
        * rewrite Hs in Hm2, He2.
          destruct (fexp_succ (Zdigits2 (shr_m mrs1) + e1)) as [Hf|Hf];
            rewrite <- Z.add_assoc, (Z.add_comm 1), Z.add_assoc, Hf, Hc1 in Hm2, He2.
          -- rewrite Z.sub_diag, Z.max_id in Hm2, He2.
             rewrite Z.shiftr_0_r in Hm2. rewrite Hm2, Hs. replace e2 with e1 by lia.
             split; [lia|]. split; [|lia].
             rewrite <- Z.add_assoc, (Z.add_comm 1), Z.add_assoc, Hf. exact Hc1.
          -- replace (e1 + 1 - e1) with 1 in Hm2, He2 by lia. rewrite Z.max_r in Hm2, He2 by lia.
             rewrite Hm2, Hs2. split; [lia|]. split; [|lia].
             replace (Zdigits2 (shr_m mrs1) + e2) with (Zdigits2 (shr_m mrs1) + e1 + 1) by lia.
             rewrite Hf. lia. }
  destruct Hcan as [Hz|(Hp & Hc & Hle)].
  - rewrite Hz. left. reflexivity.
  - destruct (shr_m mrs2) as [|p|p] eqn:Ep; try lia.
    destruct (Z.leb_spec e2 (emax - prec)).
    + right. left. exists p, e2. split; [reflexivity|].
      unfold bounded, canonical_mantissa. change (Zdigits2 (Z.pos p)) with (Z.pos (digits2_pos p)) in Hc.
      rewrite Hc, Z.eqb_refl. apply Z.leb_le. lia.
    + right. right. split; [reflexivity|]. lia.
Qed.

Lemma digits2_pos_iter_xO m d :
  Z.pos (digits2_pos (Pos.iter xO m d)) = Z.pos (digits2_pos m) + Z.pos d.
Proof.
  revert m. induction d using Pos.peano_ind; intros m.
  - simpl. lia.
  - rewrite Pos.iter_succ. simpl. rewrite Pos2Z.inj_succ, IHd. lia.
Qed.

Theorem binary_round_cases sx mx ex :
  let r := binary_round prec emax sx mx ex in
  r = S754_zero sx \/
  (exists m e, r = S754_finite sx m e /\ bounded prec emax m e = true) \/
  (r = S754_infinity sx /\ emax - prec < fexp prec emax (Z.pos (digits2_pos mx) + ex) + 1).
Proof.
  cbv zeta. unfold binary_round, shl_align.
  set (D := Z.pos (digits2_pos mx) + ex).
  destruct (fexp prec emax D - ex) as [|d|d] eqn:Ed.
  - apply (binary_round_aux_cases sx (Z.pos mx) ex loc_Exact); [lia|]. simpl Zdigits2. fold D. lia.
  - apply (binary_round_aux_cases sx (Z.pos mx) ex loc_Exact); [lia|]. simpl Zdigits2. fold D. lia.
  - pose proof (binary_round_aux_cases sx (Z.pos (Pos.iter xO mx d)) (fexp prec emax D) loc_Exact ltac:(lia)) as H.
    simpl Zdigits2 in H. rewrite digits2_pos_iter_xO in H.
    replace (Z.pos (digits2_pos mx) + Z.pos d + fexp prec emax D) with D in H by (unfold D in *; lia).
    apply H. lia.
Qed.

Theorem binary_round_valid sx mx ex :
  valid_binary prec emax (binary_round prec emax sx mx ex) = true.
Proof.
  destruct (binary_round_cases sx mx ex) as [H|[(m & e & H & Hb)|[H _]]]; rewrite H; simpl; auto.
Qed.


(** A value of the target format is left as it is. *)
Theorem binary_round_id sx mx ex :
  bounded prec emax mx ex = true ->
  binary_round prec emax sx mx ex = S754_finite sx mx ex.
Proof.
  unfold bounded, canonical_mantissa. intros Hb.
  apply andb_prop in Hb as [Hc Hle]. apply Z.eqb_eq in Hc.
  unfold binary_round, shl_align. rewrite Hc, Z.sub_diag.
  unfold binary_round_aux, shr_fexp. simpl Zdigits2. rewrite Hc, Z.sub_diag. simpl.
  rewrite Hc, Z.sub_diag. simpl. rewrite Hle. reflexivity.
Qed.

Lemma digits2_pos_bound p k : 0 <= k -> Z.pos p < 2 ^ k -> Z.pos (digits2_pos p) <= k.
Proof.
  intros Hk Hp. rewrite digits2_pos_size.
  pose proof (Pos.size_le p) as Hs.
  assert (H : 2 ^ Z.pos (Pos.size p) <= 2 * Z.pos p).
  { apply Pos2Z.pos_le_pos in Hs. rewrite Pos2Z.inj_pow in Hs. exact Hs. }
  destruct (Z.le_gt_cases (Z.pos (Pos.size p)) k) as [|Hgt]; [assumption|exfalso].
  assert (2 ^ (k + 1) <= 2 ^ Z.pos (Pos.size p)) by (apply Z.pow_le_mono_r; lia).
  rewrite Z.pow_add_r in * by lia. lia.
Qed.

End Rounding.


Lemma double_to_float_valid (x : float64) : is_float32 (double_to_float x) = true.
Proof.
  destruct x as [s|s| |s m e]; try reflexivity.
  apply binary_round_valid. reflexivity.
Qed.

Lemma double_to_float_id (x : float64) : is_float32 x = true -> double_to_float x = x.
Proof.
  destruct x as [s|s| |s m e]; try reflexivity.
  intros H. apply binary_round_id. exact H.
Qed.

Lemma int_to_double_finite (z : Z) :
  Z.abs z < 2 ^ 1023 -> is_infinity (int_to_double z) = false.
Proof.
  intros Hz. unfold int_to_double, f64, binary_normalize.
  destruct z as [|p|p]; [reflexivity| |].
  - destruct (binary_round_cases prec64 emax64 ltac:(reflexivity) false p 0)
      as [H|[(m & e & H & _)|[_ H]]]; [rewrite H; reflexivity ..|exfalso].
    pose proof (digits2_pos_bound p 1023 ltac:(lia) ltac:(lia)) as Hd.
    unfold SpecFloat.fexp, SpecFloat.emin, prec64, emax64 in H. lia.
  - destruct (binary_round_cases prec64 emax64 ltac:(reflexivity) true p 0)
      as [H|[(m & e & H & _)|[_ H]]]; [rewrite H; reflexivity ..|exfalso].
    pose proof (digits2_pos_bound p 1023 ltac:(lia) ltac:(lia)) as Hd.
    unfold SpecFloat.fexp, SpecFloat.emin, prec64, emax64 in H. lia.
Qed.

Lemma cell_to_float32_valid (c : cell) (y : float32) :
  cell_to_float32 c = inr y -> is_float32 y = true.
Proof.
  destruct c as [x|z]; simpl.
  - intros [= <-]. apply double_to_float_valid.
  - destruct (is_infinity (int_to_double z)); [discriminate|].
    intros [= <-]. apply double_to_float_valid.
Qed.

(** ** The definitions at work *)

Example startup_sample : startup sample_env = Up sample_world.
Proof. vm_compute. reflexivity. Qed.

Example startup_sample_relative : startup sample_env_relative = Up sample_world.
Proof. vm_compute. reflexivity. Qed.

Example parse_scenario : parse_body (JObj scenario_members) = inr scenario_input.
Proof. vm_compute. reflexivity. Qed.

Example assemble_scenario :
  assemble scenario_input = inr [[f32 1 0; f32 2 0; f32 3 0; f32 1000 0; f32 21 (-1); f32 41 (-1)]].
Proof. vm_compute. reflexivity. Qed.

Example f32_1000 : f32 1000 0 = S754_finite false 16384000 (-14).
Proof. vm_compute. reflexivity. Qed.

Example f32_10_5 : f32 21 (-1) = S754_finite false 11010048 (-20).
Proof. vm_compute. reflexivity. Qed.

Example timestamp_through_double :
  double_to_float (int_to_double 1700000000) = S754_finite false 13281250 7.
Proof. vm_compute. reflexivity. Qed.

Example handle_scenario :
  (handle (PostPredict (JObj scenario_members)) sample_world).1
  = mkResponse 200 (JObj [("predictions", JArr [JArr [JFloat (f64 1 0)]])]).
Proof. vm_compute. reflexivity. Qed.

Example handle_mismatched :
  predict mismatched_input sample_world
  = (inl (HTTPException 500 "Prediction error: All arrays must be of the same length"),
     sample_world).
Proof. vm_compute. reflexivity. Qed.

(** ** Assembly of the feature matrix *)

Lemma traverse_inr {A B : Type} (f : A -> exn + B) (l : list A) (l' : list B) :
  traverse f l = inr l' <-> Forall2 (fun a b => f a = inr b) l l'.
Proof.
  revert l'. induction l as [|a l IH]; intros l'; simpl.
  - split.
    + intros [= <-]. constructor.
    + intros H. inversion H. reflexivity.
  - destruct (f a) as [e|b] eqn:Ea.
    + split; [discriminate|]. intros H. inversion H; subst. congruence.
    + destruct (traverse f l) as [e|bs] eqn:Et.
      * split; [discriminate|]. intros H. inversion H as [|? b' ? bs' Hb Hbs]; subst.
        apply IH in Hbs. discriminate.
      * split.
        -- intros [= <-]. constructor; [assumption|]. apply IH. reflexivity.
        -- intros H. inversion H as [|? b' ? bs' Hb Hbs]; subst.
           apply IH in Hbs. congruence.
Qed.

Lemma all_same_length_frame (input : ModelInput) :
  all_same_length (frame_data input) = true <-> aligned input.
Proof.
  unfold aligned. simpl. rewrite !andb_true_iff, !Nat.eqb_eq. tauto.
Qed.

Lemma select_required (input : ModelInput) :
  select_columns (frame_data input) required_columns = inr (frame_data input).
Proof. reflexivity. Qed.

(** The cells of row [i] of the frame. *)
Lemma row_at_frame (input : ModelInput) (i : nat) (o : observation) :
  observation_at input i = Some o ->
  row_at (map (fun kc => column_cells kc.2) (frame_data input)) i
  = [CFloat (obs_accelerationY o); CFloat (obs_accelerationZ o); CFloat (obs_speedv o);
     CInt (obs_unixTimestamp o); CFloat (obs_latitude o); CFloat (obs_longitude o)].
Proof.
  unfold observation_at, row_at. simpl.
  rewrite !list_lookup_fmap.
  destruct (accelerationY input !! i) as [a|]; [|discriminate].
  destruct (accelerationZ input !! i) as [b|]; [|discriminate].
  destruct (speedv input !! i) as [c|]; [|discriminate].
  destruct (unixTimestamp input !! i) as [t|]; [|discriminate].
  destruct (latitude input !! i) as [e|]; [|discriminate].
  destruct (longitude input !! i) as [f|]; [|discriminate].
  simpl. intros [= <-]. reflexivity.
Qed.

Lemma observation_at_aligned (input : ModelInput) (i : nat) :
  aligned input -> (i < length (accelerationY input))%nat ->
  is_Some (observation_at input i).
Proof.
  intros (H1 & H2 & H3 & H4 & H5) Hi. unfold observation_at.
  destruct (lookup_lt_is_Some_2 (accelerationY input) i Hi) as [a ->].
  destruct (lookup_lt_is_Some_2 (accelerationZ input) i ltac:(lia)) as [b ->].
  destruct (lookup_lt_is_Some_2 (speedv input) i ltac:(lia)) as [c ->].
  destruct (lookup_lt_is_Some_2 (unixTimestamp input) i ltac:(lia)) as [t ->].
  destruct (lookup_lt_is_Some_2 (latitude input) i ltac:(lia)) as [e ->].
  destruct (lookup_lt_is_Some_2 (longitude input) i ltac:(lia)) as [f ->].
  simpl. eauto.
Qed.

Lemma observation_at_ge (input : ModelInput) (i : nat) :
  (length (accelerationY input) <= i)%nat -> observation_at input i = None.
Proof.
  intros Hi. unfold observation_at. rewrite (lookup_ge_None_2 _ _ Hi). reflexivity.
Qed.

(** Assembly either stops at the frame or converts the rows of the frame. *)
Lemma assemble_unfold (input : ModelInput) :
  assemble input =
  if all_same_length (frame_data input)
  then astype_float32
         (map (row_at (map (fun kc => column_cells kc.2) (frame_data input)))
            (seq 0 (length (accelerationY input))))
  else inl (ValueError "All arrays must be of the same length").
Proof.
  unfold assemble, DataFrame_new, DataFrame_getitem, DataFrame_values.
  destruct (all_same_length (frame_data input)); reflexivity.
Qed.

Lemma feature_row_convert (o : observation) (row : list float32) :
  traverse cell_to_float32
    [CFloat (obs_accelerationY o); CFloat (obs_accelerationZ o); CFloat (obs_speedv o);
     CInt (obs_unixTimestamp o); CFloat (obs_latitude o); CFloat (obs_longitude o)]
  = inr row -> row = feature_row o.
Proof.
  simpl. destruct (is_infinity (int_to_double (obs_unixTimestamp o))); [discriminate|].
  intros [= <-]. reflexivity.
Qed.


(** A matrix that was assembled has one row per observation: row [i] is the
    feature row of observation [i]. *)
Lemma assemble_rows (input : ModelInput) (M : matrix) :
  assemble input = inr M ->
  aligned input /\
  length M = length (accelerationY input) /\
  forall i, M !! i = feature_row <$> observation_at input i.
Proof.
  rewrite assemble_unfold.
  destruct (all_same_length (frame_data input)) eqn:Hal; [|discriminate].
  apply all_same_length_frame in Hal. intros HM.
  apply traverse_inr in HM.
  pose proof (Forall2_length _ _ _ HM) as Hlen.
  rewrite length_map, length_seq in Hlen.
  split; [assumption|]. split; [lia|]. intros i.
  destruct (Nat.lt_ge_cases i (length (accelerationY input))) as [Hi|Hi].
  - destruct (observation_at_aligned input i Hal Hi) as [o Ho].
    destruct (lookup_lt_is_Some_2 M i ltac:(lia)) as [row Hrow].
    rewrite Ho, Hrow. simpl. f_equal.
    eapply Forall2_lookup_lr in HM; [| |exact Hrow].
    + apply feature_row_convert. exact HM.
    + rewrite list_lookup_fmap, lookup_seq_lt by lia. simpl.
      f_equal. apply row_at_frame. exact Ho.
  - rewrite observation_at_ge by lia. simpl. apply lookup_ge_None_2. lia.
Qed.

(** ** Request bodies *)

Lemma loads_object_snoc (members : list (string * json)) (k : string) (v : json) :
  loads_object (members ++ [(k, v)]) = <[k := v]> (loads_object members).
Proof. unfold loads_object. rewrite foldl_snoc. reflexivity. Qed.

(** With distinct keys the dict holds exactly the members. *)
Lemma loads_object_list_to_map (members : list (string * json)) :
  NoDup members.*1 -> loads_object members = list_to_map members.
Proof.
  induction members as [|[k v] members IH] using rev_ind; intros Hnd.
  - reflexivity.
  - rewrite fmap_app in Hnd. apply NoDup_app in Hnd as (Hnd & Hk & _).
    rewrite loads_object_snoc, IH by assumption.
    rewrite list_to_map_snoc; [reflexivity|].
    intros Hin. apply (Hk k Hin). simpl. left.
Qed.

Lemma loads_object_permutation (members members' : list (string * json)) :
  NoDup members.*1 -> members ≡ₚ members' ->
  loads_object members = loads_object members'.
Proof.
  intros Hnd Hp.
  assert (Hnd' : NoDup members'.*1) by (rewrite <- Hp; assumption).
  rewrite !loads_object_list_to_map by assumption.
  apply list_to_map_proper; assumption.
Qed.


(** ** The handler and the world *)

Lemma predict_unfold (input : ModelInput) (w : World) :
  predict input w =
  match predict_body input w with
  | (inl e, w') => (inl (HTTPException 500 ("Prediction error: " +:+ str_exn e)), w')
  | (inr c, w') => (inr c, w')
  end.
Proof. unfold predict, try_except, raise. destruct (predict_body input w) as [[e|c] w']; reflexivity. Qed.

(** A failed assembly ends the body before the session is touched. *)
Lemma predict_body_assemble_failed (input : ModelInput) (w : World) (e : exn) :
  assemble input = inl e -> predict_body input w = (inl e, w).
Proof.
  intros H. unfold predict_body, mbind, Py_bind, lift. rewrite H. reflexivity.
Qed.

(** What the body does once the matrix is there. *)
Lemma predict_body_assembled (input : ModelInput) (w : World) (M : matrix) :
  assemble input = inr M ->
  predict_body input w =
  match get_inputs (sess (globals w)) with
  | [] => (inl (IndexError "list index out of range"), w)
  | first :: _ =>
      let w' := mkWorld (globals w) (run_log w ++ [[(name first, M)]]) in
      match run (sess (globals w)) None [(name first, M)] with
      | inl e => (inl e, w')
      | inr [] => (inl (IndexError "list index out of range"), w')
      | inr (predictions :: _) => (inr (JObj [("predictions", tolist predictions)]), w')
      end
  end.
Proof.
  intros H. unfold predict_body, mbind, Py_bind, lift, global_sess, call_run, mret, Py_ret.
  rewrite H. destruct (get_inputs (sess (globals w))) as [|first rest]; simpl; [reflexivity|].
  destruct (run (sess (globals w)) None [(name first, M)]) as [e|[|p ps]]; reflexivity.
Qed.

(** The body leaves the globals alone, and its result and the feeds it
    records depend on nothing but the globals. *)
Lemma predict_body_frame (input : ModelInput) (w : World) :
  exists calls,
    forall log, (predict_body input (mkWorld (globals w) log)).2
                = mkWorld (globals w) (log ++ calls) /\
                (predict_body input (mkWorld (globals w) log)).1 = (predict_body input w).1.
Proof.
  destruct (assemble input) as [e|M] eqn:HA.
  - exists []. intros log. rewrite !(predict_body_assemble_failed _ _ e HA).
    simpl. rewrite app_nil_r. split; reflexivity.
  - destruct (get_inputs (sess (globals w))) as [|first rest] eqn:Hin.
    + exists []. intros log. rewrite !(predict_body_assembled _ _ M HA). simpl. rewrite Hin.
      simpl. rewrite app_nil_r. split; reflexivity.
    + exists [[(name first, M)]]. intros log.
      rewrite !(predict_body_assembled _ _ M HA). simpl. rewrite Hin. simpl.
      destruct (run (sess (globals w)) None [(name first, M)]) as [e|[|p ps]];
        split; reflexivity.
Qed.

Lemma World_eta (w : World) : mkWorld (globals w) (run_log w) = w.
Proof. destruct w. reflexivity. Qed.

Lemma predict_globals (input : ModelInput) (w : World) :
  globals (predict input w).2 = globals w.
Proof.
  destruct (predict_body_frame input w) as [calls H].
  destruct (H (run_log w)) as [H2 _]. rewrite World_eta in H2.
  rewrite predict_unfold. destruct (predict_body input w) as [[e|c] w']; simpl in *; subst w'; reflexivity.
Qed.

Lemma predict_result_globals (input : ModelInput) (w1 w2 : World) :
  globals w1 = globals w2 -> (predict input w1).1 = (predict input w2).1.
Proof.
  intros Hg.
  destruct (predict_body_frame input w2) as [calls H].
  destruct (H (run_log w1)) as [_ H1]. rewrite <- Hg, World_eta in H1.
  rewrite !predict_unfold.
  destruct (predict_body input w1) as [[e1|c1] w1'], (predict_body input w2) as [[e2|c2] w2'];
    simpl in *; congruence.
Qed.

Lemma handle_globals (req : request) (w : World) :
  globals (handle req w).2 = globals w.
Proof.
  destruct req as [body|]; simpl.
  - destruct (registered POST_predict w); [|reflexivity].
    destruct (parse_body body) as [errs|input]; [reflexivity|].
    pose proof (predict_globals input w) as H.
    destruct (predict input w) as [r w']. exact H.
  - destruct (registered GET_root w); reflexivity.
Qed.

Lemma handle_response_globals (req : request) (w1 w2 : World) :
  globals w1 = globals w2 -> (handle req w1).1 = (handle req w2).1.
Proof.
  intros Hg. destruct req as [body|]; simpl; unfold registered; rewrite Hg.
  - destruct (existsb _ _); [|reflexivity].
    destruct (parse_body body) as [errs|input]; [reflexivity|].
    pose proof (predict_result_globals input w1 w2 Hg) as H.
    destruct (predict input w1) as [r1 w1'], (predict input w2) as [r2 w2'].
    simpl in *. congruence.
  - destruct (existsb _ _); reflexivity.
Qed.

(** A running process keeps running, keeps its globals, and answers each
    request as it would have answered it first. *)
Lemma serve_all_up (reqs : list request) (w : World) :
  exists w', serve_all (Up w) reqs = (map (fun req => Some (handle req w).1) reqs, Up w')
             /\ globals w' = globals w.
Proof.
  revert w. induction reqs as [|req reqs IH]; intros w.
  - exists w. split; reflexivity.
  - simpl. destruct (handle req w) as [resp w1] eqn:Hh.
    assert (Hg : globals w1 = globals w) by (rewrite <- (handle_globals req w), Hh; reflexivity).
    destruct (IH w1) as (w' & Hs & Hg'). rewrite Hs.
    exists w'. split; [|congruence]. simpl. f_equal. f_equal.
    apply map_ext. intros r. f_equal. apply handle_response_globals. exact Hg.
Qed.

(** ** The feature matrix: columns, rows and element type *)

(** C1: the feature matrix is built by taking the six fields by name in the
    column order accelerationY, accelerationZ, speedv, unixTimestamp,
    latitude, longitude: row [i] of an assembled matrix is the feature row of
    observation [i].  The one-row request of the scenario is parsed to
    [scenario_input] and yields the matrix [[1.0, 2.0, 3.0, 1000.0, 10.5,
    20.5]].  Reordering the members of a request object (whose keys are
    distinct) changes neither the response nor the world after it. *)
Theorem feature_columns_by_name :
  (forall (input : ModelInput) (M : matrix),
      assemble input = inr M ->
      forall i, M !! i = feature_row <$> observation_at input i) /\
  (parse_body (JObj scenario_members) = inr scenario_input /\
   assemble scenario_input
   = inr [[f32 1 0; f32 2 0; f32 3 0; f32 1000 0; f32 21 (-1); f32 41 (-1)]]) /\
  (forall (members members' : list (string * json)) (w : World),
      NoDup members.*1 -> members ≡ₚ members' ->
      handle (PostPredict (JObj members)) w = handle (PostPredict (JObj members')) w).
Proof.
  split; [|split].
  - intros input M HM. apply (assemble_rows input M HM).
  - split; vm_compute; reflexivity.
  - intros members members' w Hnd Hp. simpl.
    rewrite (loads_object_permutation members members' Hnd Hp). reflexivity.
Qed.

Lemma feature_columns_by_name_witness :
  [[f32 1 0; f32 2 0; f32 3 0; f32 1000 0; f32 21 (-1); f32 41 (-1)]] !! 0%nat
  = feature_row <$> observation_at scenario_input 0 /\
  handle (PostPredict (JObj scenario_members)) sample_world
  = handle (PostPredict (JObj (reverse scenario_members))) sample_world.
Proof.
  destruct feature_columns_by_name as (Hrows & _ & Hperm). split.
  - apply (Hrows scenario_input). vm_compute. reflexivity.
  - apply Hperm.
    + refine (bool_decide_unpack (NoDup scenario_members.*1) _). vm_compute. exact I.
    + symmetry. apply reverse_Permutation.
Defined.

(** C3: every element of an assembled matrix is a binary32 value, those of
    the integer timestamp column included; each is the conversion of the
    value at the same place of the request and nothing more, and a value that
    binary32 holds exactly is left as it is. *)
Theorem matrix_elements_are_float32 (input : ModelInput) (M : matrix) :
  assemble input = inr M ->
  Forall (Forall (fun x => is_float32 x = true)) M /\
  (forall i, M !! i = feature_row <$> observation_at input i) /\
  (forall x : float64, is_float32 x = true -> double_to_float x = x).
Proof.
  intros HM. split; [|split].
  - rewrite assemble_unfold in HM.
    destruct (all_same_length (frame_data input)); [|discriminate].
    apply traverse_inr in HM. induction HM as [|r row rs rows Hr _ IH]; constructor; [|exact IH].
    apply traverse_inr in Hr. induction Hr as [|c y cs ys Hc _ IHr]; constructor; [|exact IHr].
    apply (cell_to_float32_valid c y Hc).
  - apply (assemble_rows input M HM).
  - apply double_to_float_id.
Qed.

Lemma matrix_elements_are_float32_witness :
  Forall (Forall (fun x => is_float32 x = true))
    [[f32 1 0; f32 2 0; f32 3 0; f32 1000 0; f32 21 (-1); f32 41 (-1)]].
Proof.
  apply (matrix_elements_are_float32 scenario_input). vm_compute. reflexivity.
Defined.

(** ** Requests whose sequences differ in length *)

(** C2, as the code has it: a request whose six sequences do not have one
    length makes the frame constructor raise; no matrix is built, [predict]
    raises the 500 [HTTPException] that wraps the message of the frame
    constructor, and the world is the one before the call, so nothing was
    given to [sess.run]. *)
Theorem length_mismatch_is_wrapped_error (input : ModelInput) (w : World) :
  ~ aligned input ->
  assemble input = inl (ValueError "All arrays must be of the same length") /\
  predict input w
  = (inl (HTTPException 500 "Prediction error: All arrays must be of the same length"), w) /\
  respond (predict input w).1
  = mkResponse 500
      (JObj [("detail", JStr "Prediction error: All arrays must be of the same length")]).
Proof.
  intros Hna.
  assert (HA : assemble input = inl (ValueError "All arrays must be of the same length")).
  { rewrite assemble_unfold. destruct (all_same_length (frame_data input)) eqn:Hal; [|reflexivity].
    exfalso. apply Hna, all_same_length_frame, Hal. }
  assert (HP : predict input w
    = (inl (HTTPException 500 "Prediction error: All arrays must be of the same length"), w)).
  { rewrite predict_unfold, (predict_body_assemble_failed _ _ _ HA). reflexivity. }
  split; [exact HA|]. split; [exact HP|]. rewrite HP. reflexivity.
Qed.

Lemma length_mismatch_is_wrapped_error_witness :
  predict mismatched_input sample_world
  = (inl (HTTPException 500 "Prediction error: All arrays must be of the same length"),
     sample_world).
Proof.
  apply (length_mismatch_is_wrapped_error mismatched_input sample_world).
  unfold aligned. simpl. lia.
Defined.

(** C2, as the specification states it, fails: three accelerations against
    two latitudes do not raise a [ValidationError]; the failure is the
    wrapped 500. *)
Lemma length_mismatch_is_not_ValidationError :
  ~ aligned mismatched_input /\
  ~ (exists msg, (predict mismatched_input sample_world).1 = inl (ValidationError msg)) /\
  (predict mismatched_input sample_world).1
  = inl (HTTPException 500 "Prediction error: All arrays must be of the same length").
Proof.
  split; [unfold aligned; simpl; lia|]. split.
  - intros [msg H]. vm_compute in H. discriminate H.
  - vm_compute. reflexivity.
Qed.

(** ** One result row per observation *)






(** Every 64-bit timestamp, signed or unsigned, fits a double. *)
Lemma int64_fits_double (t : Z) :
  - 2 ^ 63 <= t < 2 ^ 64 -> is_infinity (int_to_double t) = false.
Proof. intros H. apply int_to_double_finite. lia. Qed.

(** ** Failures of a request *)

(** C5: whatever exception the body of [predict] raises, the caller receives
    status 500 with the payload [{"detail": "Prediction error: <str(e)>"}],
    where [e] is that exception; [predict] raises nothing of another form.
    The process stays up with its globals, and a series of requests gets the
    responses each request would get on its own, whatever failed before. *)
Theorem predict_failure_is_http_500 (input : ModelInput) (w : World) :
  (forall (e : exn) (w' : World),
      predict_body input w = (inl e, w') ->
      predict input w
      = (inl (HTTPException 500 ("Prediction error: " +:+ str_exn e)), w') /\
      respond (predict input w).1
      = mkResponse 500 (JObj [("detail", JStr ("Prediction error: " +:+ str_exn e))])) /\
  (forall e : exn,
      (predict input w).1 = inl e ->
      exists cause, (predict_body input w).1 = inl cause /\
                    e = HTTPException 500 ("Prediction error: " +:+ str_exn cause)) /\
  globals (predict input w).2 = globals w /\
  (forall reqs : list request,
      exists w', serve_all (Up w) reqs
                 = (map (fun req => Some (handle req w).1) reqs, Up w')
                 /\ globals w' = globals w).
Proof.
  split; [|split; [|split]].
  - intros e w' Hb. rewrite predict_unfold, Hb. split; reflexivity.
  - intros e. rewrite predict_unfold.
    destruct (predict_body input w) as [[cause|c] w']; simpl; [|discriminate].
    intros [= <-]. exists cause. split; reflexivity.
  - apply predict_globals.
  - intros reqs. apply serve_all_up.
Qed.

Lemma predict_failure_is_http_500_witness :
  respond (predict mismatched_input sample_world).1
  = mkResponse 500
      (JObj [("detail", JStr ("Prediction error: "
                              +:+ str_exn (ValueError "All arrays must be of the same length")))])
  /\ exists cause,
      (predict_body mismatched_input sample_world).1 = inl cause /\
      HTTPException 500 "Prediction error: All arrays must be of the same length"
      = HTTPException 500 ("Prediction error: " +:+ str_exn cause).
Proof.
  destruct (predict_failure_is_http_500 mismatched_input sample_world) as (H1 & H2 & _).
  split.
  - apply (H1 (ValueError "All arrays must be of the same length") sample_world).
    vm_compute. reflexivity.
  - apply H2. vm_compute. reflexivity.
Defined.

(** ** Repeated requests *)

(** C6: [predict] called again on the same input, in the world the first
    call left, gives the same result; both calls leave the globals (the
    session and its options among them) as they were.  The same holds for a
    request handled twice. *)
Theorem predict_is_repeatable (input : ModelInput) (req : request) (w : World) :
  (predict input (predict input w).2).1 = (predict input w).1 /\
  globals (predict input w).2 = globals w /\
  globals (predict input (predict input w).2).2 = globals w /\
  (handle req (handle req w).2).1 = (handle req w).1 /\
  globals (handle req (handle req w).2).2 = globals w.
Proof.
  pose proof (predict_globals input w) as Hg.
  pose proof (handle_globals req w) as Hh.
  split; [apply predict_result_globals; exact Hg|].
  split; [exact Hg|].
  split; [rewrite predict_globals; exact Hg|].
  split; [apply handle_response_globals; exact Hh|].
  rewrite handle_globals. exact Hh.
Qed.

(** ** Startup *)

Lemma serve_all_crashed (e : exn) (out : list string) (reqs : list request) :
  serve_all (Crashed e out) reqs = (map (fun _ => None) reqs, Crashed e out).
Proof.
  induction reqs as [|req reqs IH]; simpl; [reflexivity|]. rewrite IH. reflexivity.
Qed.

(** C7: when the session constructor raises on the model file, the import
    of the module ends with that very exception after printing it; no route
    was registered and no request is ever answered.  A process that is up
    holds the session the constructor returned. *)
Theorem load_failure_aborts_startup :
  (forall (env : Env) (e : exn),
      InferenceSession_new env (resolve_onnx_model_path env) configured_options = inl e ->
      startup env = Crashed e ["Failed to load ONNX model: " +:+ str_exn e] /\
      forall reqs : list request,
        service env reqs
        = (map (fun _ => None) reqs,
           Crashed e ["Failed to load ONNX model: " +:+ str_exn e])) /\
  (forall (env : Env) (w : World),
      startup env = Up w ->
      InferenceSession_new env (resolve_onnx_model_path env) configured_options
      = inr (sess (globals w))).
Proof.
  split.
  - intros env e Hload.
    assert (Hs : startup env = Crashed e ["Failed to load ONNX model: " +:+ str_exn e]).
    { unfold startup. fold (resolve_onnx_model_path env). rewrite Hload. reflexivity. }
    split; [exact Hs|]. intros reqs. unfold service. rewrite Hs. apply serve_all_crashed.
  - intros env w. unfold startup. fold (resolve_onnx_model_path env).
    destruct (InferenceSession_new env (resolve_onnx_model_path env) configured_options)
      as [e|s]; [discriminate|].
    intros [= <-]. reflexivity.
Qed.

Lemma load_failure_aborts_startup_witness :
  service broken_env [PostPredict (JObj scenario_members); GetRoot]
  = ([None; None],
     Crashed (EngineError "NO_SUCHFILE" "Load model from /opt/empty/xgb_model.onnx failed")
       ["Failed to load ONNX model: Load model from /opt/empty/xgb_model.onnx failed"])
  /\ InferenceSession_new sample_env (resolve_onnx_model_path sample_env) configured_options
     = inr (sess (globals sample_world)).
Proof.
  destruct load_failure_aborts_startup as [Hfail Hup]. split.
  - refine (proj2 (Hfail broken_env
              (EngineError "NO_SUCHFILE" "Load model from /opt/empty/xgb_model.onnx failed") _)
              [PostPredict (JObj scenario_members); GetRoot]).
    vm_compute. reflexivity.
  - apply Hup. vm_compute. reflexivity.
Defined.

(** C8: the options the session is constructed with are inter-op threads 1,
    intra-op threads 1 and sequential execution, whatever the environment;
    they are the [session_options] of a started process and stay so, with
    the session, through any series of requests. *)
Theorem execution_policy_is_fixed :
  configured_options = mkSessionOptions 1 1 ORT_SEQUENTIAL /\
  forall (env : Env) (w : World),
    startup env = Up w ->
    session_options (globals w) = mkSessionOptions 1 1 ORT_SEQUENTIAL /\
    InferenceSession_new env (onnx_model_path (globals w))
      (mkSessionOptions 1 1 ORT_SEQUENTIAL) = inr (sess (globals w)) /\
    forall reqs : list request,
      exists w', (serve_all (Up w) reqs).2 = Up w' /\
                 session_options (globals w') = mkSessionOptions 1 1 ORT_SEQUENTIAL /\
                 sess (globals w') = sess (globals w).
Proof.
  split; [reflexivity|]. intros env w. unfold startup.
  destruct (InferenceSession_new env _ configured_options) as [e|s] eqn:Hload; [discriminate|].
  intros [= <-]. simpl. split; [reflexivity|]. split; [exact Hload|].
  intros reqs.
  destruct (serve_all_up reqs
              (mkWorld (mkGlobals [POST_predict; GET_root] configured_options
                          (resolve_model_directory env)
                          (posixpath.join (resolve_model_directory env) "xgb_model.onnx") s) []))
    as (w' & Hs & Hg).
  exists w'. rewrite Hs, Hg. simpl. auto.
Qed.

Lemma execution_policy_is_fixed_witness :
  session_options (globals sample_world) = mkSessionOptions 1 1 ORT_SEQUENTIAL.
Proof.
  destruct execution_policy_is_fixed as [_ H].
  apply (H sample_env sample_world). vm_compute. reflexivity.
Defined.

(** ** Keys outside the schema *)



(** ** Paths *)

Section Paths.
Import posixpath.

Local Open Scope string_scope.

Lemma append_nil (t : string) : "" +:+ t = t.
Proof. reflexivity. Qed.

Lemma append_cons (c : ascii) (s t : string) : String c s +:+ t = String c (s +:+ t).
Proof. reflexivity. Qed.

Lemma append_empty_r (s : string) : s +:+ "" = s.
Proof.
  induction s as [|c s IH]; [reflexivity|]. rewrite append_cons. f_equal. exact IH.
Qed.

Lemma eqb_empty_append (s : string) (c : ascii) (t : string) :
  String.eqb (s +:+ String c t) "" = false.
Proof. destruct s; reflexivity. Qed.

Lemma startswith_slash_append (s t : string) :
  startswith_slash s = true -> startswith_slash (s +:+ t) = true.
Proof. destruct s; [discriminate|]. rewrite append_cons. simpl. auto. Qed.

Lemma head_part_slash (s t : string) :
  head_part (s +:+ String slash t) = s +:+ String slash (head_part t).
Proof.
  induction s as [|c s IH]; rewrite ?append_nil, ?append_cons; simpl.
  - reflexivity.
  - rewrite IH, eqb_empty_append. rewrite orb_true_r. reflexivity.
Qed.

Lemma head_part_all_slashes (s t : string) :
  all_slashes s = true -> head_part (s +:+ t) = s +:+ head_part t.
Proof.
  induction s as [|c s IH]; rewrite ?append_nil, ?append_cons; simpl; [reflexivity|].
  intros H. apply andb_prop in H as [Hc Hs]. rewrite Hc, (IH Hs). reflexivity.
Qed.

Lemma all_slashes_append (s t : string) :
  all_slashes (s +:+ t) = all_slashes s && all_slashes t.
Proof.
  induction s as [|c s IH]; rewrite ?append_nil, ?append_cons; simpl; [reflexivity|].
  rewrite IH, andb_assoc. reflexivity.
Qed.

Lemma rstrip_slashes_empty (s : string) :
  rstrip_slashes s = "" <-> all_slashes s = true.
Proof.
  induction s as [|c s IH]; simpl; [tauto|].
  destruct (Ascii.eqb c slash); simpl.
  - destruct (rstrip_slashes s) eqn:E; simpl.
    + split; [intros _; apply IH; reflexivity|reflexivity].
    + split; [discriminate|]. intros H. apply IH in H. discriminate.
  - split; discriminate.
Qed.

Lemma rstrip_slashes_snoc (s : string) :
  rstrip_slashes (s +:+ String slash "") = rstrip_slashes s.
Proof.
  induction s as [|c s IH]; rewrite ?append_nil, ?append_cons; simpl; [reflexivity|].
  rewrite IH. reflexivity.
Qed.

Lemma rstrip_slashes_idemp (s : string) :
  rstrip_slashes (rstrip_slashes s) = rstrip_slashes s.
Proof.
  induction s as [|c s IH]; simpl; [reflexivity|].
  destruct (Ascii.eqb c slash && String.eqb (rstrip_slashes s) "") eqn:E; [reflexivity|].
  simpl. rewrite IH, E. reflexivity.
Qed.

Lemma endswith_slash_rstrip (s : string) :
  endswith_slash (rstrip_slashes s) = false.
Proof.
  induction s as [|c s IH]; simpl; [reflexivity|].
  destruct (Ascii.eqb c slash && String.eqb (rstrip_slashes s) "") eqn:E; [reflexivity|].
  simpl. destruct (rstrip_slashes s) as [|c' r] eqn:Er.
  - simpl in E. rewrite andb_true_r in E. exact E.
  - exact IH.
Qed.

(** What [dirname] returns: slashes only, or a path without a slash at its
    end. *)
Lemma dirname_shape (p : string) :
  all_slashes (dirname p) = true \/
  (all_slashes (dirname p) = false /\ rstrip_slashes (dirname p) = dirname p).
Proof.
  unfold dirname. destruct (head_part p) as [|c h] eqn:Eh.
  - left. reflexivity.
  - change (String.eqb (String c h) "") with false.
    destruct (all_slashes (String c h)) eqn:Ea; cbn [negb andb].
    + left. exact Ea.
    + right. split.
      * destruct (all_slashes (rstrip_slashes (String c h))) eqn:E; [|reflexivity].
        apply rstrip_slashes_empty in E. rewrite rstrip_slashes_idemp in E.
        apply rstrip_slashes_empty in E. congruence.
      * apply rstrip_slashes_idemp.
Qed.

Lemma endswith_slash_all_slashes (s : string) :
  all_slashes s = true -> s <> "" -> endswith_slash s = true.
Proof.
  induction s as [|c s IH]; [congruence|]. simpl. intros H _.
  apply andb_prop in H as [Hc Hs]. destruct s as [|c' s']; [exact Hc|].
  apply IH; [exact Hs|discriminate].
Qed.

(** The directory of a file joined to a directory is that directory. *)
Lemma dirname_join_dirname (p b : string) :
  startswith_slash b = false -> head_part b = "" ->
  dirname (join (dirname p) b) = dirname p.
Proof.
  intros Hb Hh. unfold join. rewrite Hb.
  destruct (dirname_shape p) as [Ha|[Ha Hr]]; set (d := dirname p) in *; clearbody d.
  - (* slashes only *)
    assert (Hj : (if String.eqb d "" || endswith_slash d then d +:+ b
                  else d +:+ String slash b) = d +:+ b).
    { destruct d as [|c d']; [reflexivity|].
      rewrite (endswith_slash_all_slashes _ Ha) by discriminate. rewrite orb_true_r. reflexivity. }
    rewrite Hj. unfold dirname. rewrite (head_part_all_slashes _ _ Ha), Hh, append_empty_r, Ha.
    cbn [negb]. rewrite andb_false_r. reflexivity.
  - assert (Hne : String.eqb d "" = false) by (destruct d; [discriminate|reflexivity]).
    assert (He : endswith_slash d = false) by (rewrite <- Hr; apply endswith_slash_rstrip).
    rewrite Hne, He. cbn [orb].
    unfold dirname. rewrite head_part_slash, Hh, eqb_empty_append.
    rewrite all_slashes_append, Ha. cbn [negb andb].
    rewrite rstrip_slashes_snoc. exact Hr.
Qed.

Lemma dirname_absolute (p : string) :
  isabs p = true -> isabs (dirname p) = true.
Proof.
  unfold isabs, dirname. destruct p as [|c p]; [discriminate|].
  cbn [startswith_slash head_part]. intros Hc. rewrite Hc. cbn [orb].
  change (String.eqb (String c (head_part p)) "") with false.
  destruct (all_slashes (String c (head_part p))) eqn:Ea; cbn [negb andb].
  - exact Hc.
  - cbn [rstrip_slashes]. rewrite Hc.
    destruct (rstrip_slashes (head_part p)) eqn:Er; cbn [andb String.eqb].
    + apply rstrip_slashes_empty in Er. cbn [all_slashes] in Ea. rewrite Hc, Er in Ea.
      discriminate.
    + exact Hc.
Qed.

Lemma slashes_initial (p : string) :
  startswith_slash p = true -> exists k, initial_slashes_of p = S k.
Proof.
  destruct p as [|c1 [|c2 [|c3 p]]]; simpl; [discriminate| | |]; intros ->.
  - eauto.
  - destruct (Ascii.eqb c2 slash); eauto.
  - destruct (Ascii.eqb c2 slash && negb (Ascii.eqb c3 slash)); eauto.
Qed.

Lemma normpath_absolute (p : string) :
  isabs p = true -> isabs (normpath p) = true.
Proof.
  unfold isabs, normpath. intros Hp.
  destruct (slashes_initial p Hp) as [k Hk]. rewrite Hk.
  destruct p as [|c p]; [discriminate|]. simpl. exact (eq_refl true).
Qed.

Lemma join_absolute (a b : string) :
  isabs a = true -> isabs (join a b) = true.
Proof.
  unfold isabs, join. intros Ha.
  destruct (startswith_slash b) eqn:Hb; [exact Hb|].
  destruct (String.eqb a "" || endswith_slash a); apply startswith_slash_append; exact Ha.
Qed.

Lemma abspath_absolute (cwd p : string) :
  isabs cwd = true -> isabs (abspath cwd p) = true.
Proof.
  intros Hc. unfold abspath. destruct (isabs p) eqn:Hp; apply normpath_absolute.
  - exact Hp.
  - apply join_absolute. exact Hc.
Qed.

End Paths.

(** C9: the path handed to the session constructor is [xgb_model.onnx]
    joined to the directory of the absolute path of the module file.  When
    [__file__] is absolute the working directory plays no part; in every
    launch (the working directory of a process is absolute) the path is
    absolute, so opening it does not consult the working directory, and its
    directory is the directory of the module file.  Two launches that find
    the module at the same absolute path load the same file. *)
Theorem model_path_is_beside_the_code (env : Env) :
  resolve_onnx_model_path env
  = posixpath.join
      (posixpath.dirname (posixpath.abspath (getcwd env) (module_file env)))
      "xgb_model.onnx" /\
  (forall w, startup env = Up w -> onnx_model_path (globals w) = resolve_onnx_model_path env) /\
  (posixpath.isabs (module_file env) = true ->
   forall cwd' : string,
     resolve_onnx_model_path (mkEnv (module_file env) cwd' (InferenceSession_new env))
     = resolve_onnx_model_path env) /\
  (posixpath.isabs (getcwd env) = true ->
   posixpath.isabs (resolve_onnx_model_path env) = true) /\
  posixpath.dirname (resolve_onnx_model_path env)
  = posixpath.dirname (posixpath.abspath (getcwd env) (module_file env)) /\
  (forall env' : Env,
      posixpath.abspath (getcwd env') (module_file env')
      = posixpath.abspath (getcwd env) (module_file env) ->
      resolve_onnx_model_path env' = resolve_onnx_model_path env).
Proof.
  split; [reflexivity|]. split; [|split; [|split; [|split]]].
  - intros w. unfold startup.
    destruct (InferenceSession_new env _ configured_options); [discriminate|].
    intros [= <-]. reflexivity.
  - intros Habs cwd'. unfold resolve_onnx_model_path, resolve_model_directory, posixpath.abspath.
    simpl. rewrite Habs. reflexivity.
  - intros Hcwd. unfold resolve_onnx_model_path, resolve_model_directory.
    apply join_absolute, dirname_absolute, abspath_absolute. exact Hcwd.
  - unfold resolve_onnx_model_path, resolve_model_directory.
    apply dirname_join_dirname; reflexivity.
  - intros env' H. unfold resolve_onnx_model_path, resolve_model_directory. rewrite H. reflexivity.
Qed.

Lemma model_path_is_beside_the_code_witness :
  resolve_onnx_model_path (mkEnv "/srv/roadsense/fastapi-backend/app.py" "/tmp" sample_loader)
  = resolve_onnx_model_path sample_env /\
  posixpath.isabs (resolve_onnx_model_path sample_env_relative) = true /\
  resolve_onnx_model_path sample_env_relative = resolve_onnx_model_path sample_env /\
  onnx_model_path (globals sample_world) = resolve_onnx_model_path sample_env.
Proof.
  split; [|split; [|split]].
  - apply (proj1 (proj2 (proj2 (model_path_is_beside_the_code sample_env)))). reflexivity.
  - apply (proj1 (proj2 (proj2 (proj2 (model_path_is_beside_the_code sample_env_relative))))).
    reflexivity.
  - apply (proj2 (proj2 (proj2 (proj2 (proj2 (model_path_is_beside_the_code sample_env)))))).
    vm_compute. reflexivity.
  - apply (proj1 (proj2 (model_path_is_beside_the_code sample_env))). vm_compute. reflexivity.
Defined.

(** * Further properties of the code *)

(** ** Exact cases of rounding *)

Section ExactRounding.
Variables prec emax : Z.

Lemma shr_1_exact k :
  0 <= k -> shr_1 (Build_shr_record (2 * k) false false) = Build_shr_record k false false.
Proof. destruct k as [|p|p]; [reflexivity|reflexivity|lia]. Qed.

(** Shifting out zeros leaves no round bit and no sticky bit. *)
Lemma iter_shr_1_exact n : forall k, 0 <= k ->
  SpecFloat.iter_pos shr_1 n (Build_shr_record (k * 2 ^ Z.pos n) false false)
  = Build_shr_record k false false.
Proof.
  induction n as [n IH|n IH|]; intros k Hk; cbn [SpecFloat.iter_pos].
  - replace (k * 2 ^ Z.pos n~1) with (2 * (k * 2 ^ Z.pos n * 2 ^ Z.pos n)).
    + rewrite shr_1_exact by (apply Z.mul_nonneg_nonneg; [apply Z.mul_nonneg_nonneg|]; lia).
      rewrite IH by (apply Z.mul_nonneg_nonneg; lia). apply IH. exact Hk.
    + replace (Z.pos n~1) with (Z.pos n + Z.pos n + 1) by lia.
      rewrite !Z.pow_add_r by lia. ring.
  - replace (k * 2 ^ Z.pos n~0) with (k * 2 ^ Z.pos n * 2 ^ Z.pos n).
    + rewrite IH by (apply Z.mul_nonneg_nonneg; lia). apply IH. exact Hk.
    + replace (Z.pos n~0) with (Z.pos n + Z.pos n) by lia.
      rewrite !Z.pow_add_r by lia. ring.
  - replace (k * 2 ^ 1) with (2 * k) by ring. apply shr_1_exact. exact Hk.
Qed.

Lemma Zdigits2_mul_pow2 k n : 0 < k -> 0 <= n -> Zdigits2 (k * 2 ^ n) = Zdigits2 k + n.
Proof.
  intros Hk Hn. assert (0 < 2 ^ n) by (apply Z.pow_pos_nonneg; lia).
  rewrite !Zdigits2_log2 by nia. rewrite Z.log2_mul_pow2 by lia. lia.
Qed.

Lemma shr_fexp_exact k e n :
  0 < k -> 0 <= n -> fexp prec emax (Zdigits2 (k * 2 ^ n) + e) = e + n ->
  shr_fexp prec emax (k * 2 ^ n) e loc_Exact = (Build_shr_record k false false, e + n).
Proof.
  intros Hk Hn Hf. unfold shr_fexp. rewrite Hf.
  replace (e + n - e) with n by lia. destruct n as [|p|p]; [| |lia].
  - simpl. rewrite Z.mul_1_r, Z.add_0_r. reflexivity.
  - unfold shr. simpl shr_record_of_loc. rewrite iter_shr_1_exact by lia. reflexivity.
Qed.

Lemma binary_round_aux_exact s k e n :
  0 < k -> 0 <= n -> fexp prec emax (Zdigits2 (k * 2 ^ n) + e) = e + n ->
  e + n <= emax - prec ->
  binary_round_aux prec emax s (k * 2 ^ n) e loc_Exact = S754_finite s (Z.to_pos k) (e + n).
Proof.
  intros Hk Hn Hf Hle. unfold binary_round_aux.
  rewrite (shr_fexp_exact k e n Hk Hn Hf). simpl shr_m. simpl loc_of_shr_record.
  simpl round_nearest_even.
  assert (Hf' : fexp prec emax (Zdigits2 (k * 2 ^ 0) + (e + n)) = e + n + 0).
  { rewrite Z.pow_0_r, Z.mul_1_r, Z.add_0_r. rewrite Zdigits2_mul_pow2 in Hf by lia.
    rewrite <- Hf at 2. f_equal. lia. }
  pose proof (shr_fexp_exact k (e + n) 0 Hk ltac:(lia) Hf') as H2.
  rewrite Z.pow_0_r, Z.mul_1_r, Z.add_0_r in H2. rewrite H2. simpl shr_m.
  destruct k as [|p|p]; try lia. simpl Z.to_pos.
  apply Z.leb_le in Hle. rewrite Hle. reflexivity.
Qed.

Lemma pos_iter_xO m d : Z.pos (Pos.iter xO m d) = Z.pos m * 2 ^ Z.pos d.
Proof.
  induction d using Pos.peano_ind.
  - simpl. lia.
  - rewrite Pos.iter_succ, Pos2Z.inj_xO, IHd, Pos2Z.inj_succ, Z.pow_succ_r by lia. ring.
Qed.

(** A mantissa with [n] spare zeros at its end is rounded by dropping them. *)
Lemma binary_round_exact_down s m e k n :
  Z.pos m = k * 2 ^ n -> 0 <= n ->
  fexp prec emax (Z.pos (digits2_pos m) + e) = e + n -> e + n <= emax - prec ->
  binary_round prec emax s m e = S754_finite s (Z.to_pos k) (e + n).
Proof.
  intros Hm Hn Hf Hle. unfold binary_round, shl_align. rewrite Hf.
  assert (0 < 2 ^ n) by (apply Z.pow_pos_nonneg; lia).
  assert (Hk : 0 < k) by nia.
  replace (e + n - e) with n by lia.
  assert (Hgoal : binary_round_aux prec emax s (Z.pos m) e loc_Exact
                  = S754_finite s (Z.to_pos k) (e + n)).
  { rewrite Hm. apply binary_round_aux_exact; try assumption.
    rewrite <- Hm. exact Hf. }
  destruct n as [|p|p]; [exact Hgoal|exact Hgoal|lia].
Qed.

(** A short mantissa is rounded by appending zeros. *)
Lemma binary_round_exact_up s m e d :
  fexp prec emax (Z.pos (digits2_pos m) + e) = e - Z.pos d -> e - Z.pos d <= emax - prec ->
  binary_round prec emax s m e = S754_finite s (Pos.iter xO m d) (e - Z.pos d).
Proof.
  intros Hf Hle. unfold binary_round, shl_align. rewrite Hf.
  replace (e - Z.pos d - e) with (Z.neg d) by lia.
  pose proof (binary_round_aux_exact s (Z.pos (Pos.iter xO m d)) (e - Z.pos d) 0
                ltac:(lia) ltac:(lia)) as H.
  rewrite Z.pow_0_r, Z.mul_1_r, Z.add_0_r in H. simpl Z.to_pos in H. apply H; [|exact Hle].
  simpl Zdigits2. rewrite digits2_pos_iter_xO. rewrite <- Hf at 2. f_equal. lia.
Qed.

Lemma succ_pow2_even m :
  0 < m -> Zdigits2 (m + 1) = Zdigits2 m + 1 -> 2 * Z.shiftr (m + 1) 1 = m + 1.
Proof.
  intros Hm. rewrite !Zdigits2_log2 by lia. intros H.
  assert (H' : Z.log2 (Z.succ m) = Z.succ (Z.log2 m)) by (unfold Z.succ; lia).
  destruct (Z.log2_eq_succ_is_pow2 m H') as [b Hb]. unfold Z.succ in Hb.
  assert (0 < b).
  { destruct (Z.le_gt_cases b 0); [|assumption]. exfalso.
    destruct (Z.eq_dec b 0); [subst; simpl in Hb; lia|].
    rewrite Z.pow_neg_r in Hb by lia. lia. }
  rewrite Hb, Z.shiftr_div_pow2 by lia. rewrite <- Z.pow_sub_r by lia.
  rewrite <- Z.pow_succ_r by lia. f_equal. lia.
Qed.

(** Rounding a mantissa that has digits to spare: the result is the shifted
    mantissa or the next one (possibly renormalised), unless it overflows. *)
Lemma binary_round_aux_neighbours sx mx ex lx :
  0 < mx -> ex <= fexp prec emax (Zdigits2 mx + ex) ->
  0 < Z.shiftr mx (fexp prec emax (Zdigits2 mx + ex) - ex) ->
  let q := Z.shiftr mx (fexp prec emax (Zdigits2 mx + ex) - ex) in
  let r := binary_round_aux prec emax sx mx ex lx in
  (exists m, r = S754_finite sx m (fexp prec emax (Zdigits2 mx + ex)) /\
             (Z.pos m = q \/ Z.pos m = q + 1)) \/
  (exists m, r = S754_finite sx m (fexp prec emax (Zdigits2 mx + ex) + 1) /\
             2 * Z.pos m = q + 1) \/
  (r = S754_infinity sx /\ emax - prec < fexp prec emax (Zdigits2 mx + ex) + 1).
Proof.
  intros Hm Hinv Hq. cbv zeta. unfold binary_round_aux.
  pose proof (shr_fexp_spec prec emax mx ex lx ltac:(lia)) as H1. cbv zeta in H1.
  destruct (shr_fexp prec emax mx ex lx) as [mrs1 e1]. simpl in H1.
  destruct H1 as [Hm1 He1].
  rewrite Z.max_r in Hm1, He1 by lia.
  set (D := Zdigits2 mx + ex) in *.
  assert (He1' : e1 = fexp prec emax D) by lia. clear He1.
  set (m1 := round_nearest_even (shr_m mrs1) (loc_of_shr_record mrs1)).
  assert (Hr : m1 = shr_m mrs1 \/ m1 = shr_m mrs1 + 1) by apply round_nearest_even_cases.
  rewrite <- Hm1 in *.
  assert (Hm1' : 0 <= m1) by lia.
  clearbody m1.
  pose proof (shr_fexp_spec prec emax m1 e1 loc_Exact Hm1') as H2. cbv zeta in H2.
  destruct (shr_fexp prec emax m1 e1 loc_Exact) as [mrs2 e2]. simpl in H2.
  destruct H2 as [Hm2 He2].
  assert (Hd : Zdigits2 (shr_m mrs1) = Zdigits2 mx - (fexp prec emax D - ex)).
  { destruct (Zdigits2_shiftr mx (fexp prec emax D - ex) Hm ltac:(lia)) as [[Hz _]|[_ Hd]];
      rewrite <- Hm1 in *; [lia|exact Hd]. }
  assert (Hc1 : fexp prec emax (Zdigits2 (shr_m mrs1) + e1) = e1)
    by (rewrite Hd, He1'; f_equal; unfold D; lia).
  assert (Hcan : (e2 = e1 /\ (shr_m mrs2 = shr_m mrs1 \/ shr_m mrs2 = shr_m mrs1 + 1)) \/
                 (e2 = e1 + 1 /\ 2 * shr_m mrs2 = shr_m mrs1 + 1)).
  { destruct Hr as [E|E].
    - rewrite E in *. rewrite Hc1, Z.sub_diag, Z.max_id in Hm2, He2.
      rewrite Z.shiftr_0_r in Hm2. left. split; [lia|]. left. exact Hm2.
    - rewrite E in *.
      destruct (Zdigits2_succ (shr_m mrs1) Hq) as [Hs|(Hs & Hs2 & Hs3)].
      + rewrite Hs, Hc1, Z.sub_diag, Z.max_id in Hm2, He2.
        rewrite Z.shiftr_0_r in Hm2. left. split; [lia|]. right. exact Hm2.
      + pose proof (succ_pow2_even (shr_m mrs1) Hq Hs) as Hev.
        rewrite Hs in Hm2, He2.
        destruct (fexp_succ prec emax (Zdigits2 (shr_m mrs1) + e1)) as [Hf|Hf];
          rewrite <- Z.add_assoc, (Z.add_comm 1), Z.add_assoc, Hf, Hc1 in Hm2, He2.
        * rewrite Z.sub_diag, Z.max_id in Hm2, He2.
          rewrite Z.shiftr_0_r in Hm2. left. split; [lia|]. right. exact Hm2.
        * replace (e1 + 1 - e1) with 1 in Hm2, He2 by lia.
          rewrite Z.max_r in Hm2, He2 by lia.
          right. split; [lia|]. rewrite Hm2. exact Hev. }
  assert (Hpos : 0 < shr_m mrs2) by lia.
  destruct (shr_m mrs2) as [|p|p] eqn:Ep; try lia.
  destruct (Z.leb_spec e2 (emax - prec)).
  - destruct Hcan as [[-> Hc]|[-> Hc]].
    + left. exists p. rewrite <- He1'. split; [reflexivity|exact Hc].
    + right. left. exists p. rewrite <- He1'. split; [reflexivity|exact Hc].
  - right. right. split; [reflexivity|]. lia.
Qed.

Lemma binary_round_neighbours sx mx ex :
  ex <= fexp prec emax (Z.pos (digits2_pos mx) + ex) ->
  0 < Z.shiftr (Z.pos mx) (fexp prec emax (Z.pos (digits2_pos mx) + ex) - ex) ->
  let q := Z.shiftr (Z.pos mx) (fexp prec emax (Z.pos (digits2_pos mx) + ex) - ex) in
  let r := binary_round prec emax sx mx ex in
  (exists m, r = S754_finite sx m (fexp prec emax (Z.pos (digits2_pos mx) + ex)) /\
             (Z.pos m = q \/ Z.pos m = q + 1)) \/
  (exists m, r = S754_finite sx m (fexp prec emax (Z.pos (digits2_pos mx) + ex) + 1) /\
             2 * Z.pos m = q + 1) \/
  (r = S754_infinity sx /\ emax - prec < fexp prec emax (Z.pos (digits2_pos mx) + ex) + 1).
Proof.
  intros Hinv Hq. cbv zeta.
  pose proof (binary_round_aux_neighbours sx (Z.pos mx) ex loc_Exact ltac:(lia) Hinv Hq) as H.
  cbv zeta in H.
  assert (Hs : shl_align mx ex (fexp prec emax (Z.pos (digits2_pos mx) + ex)) = (mx, ex)).
  { unfold shl_align.
    destruct (fexp prec emax (Z.pos (digits2_pos mx) + ex) - ex) eqn:Ed;
      [reflexivity|reflexivity|lia]. }
  unfold binary_round. rewrite Hs. exact H.
Qed.

Lemma digits2_pos_range p d :
  1 <= d -> 2 ^ (d - 1) <= Z.pos p < 2 ^ d -> Z.pos (digits2_pos p) = d.
Proof.
  intros Hd Hp. change (Z.pos (digits2_pos p)) with (Zdigits2 (Z.pos p)).
  rewrite Zdigits2_log2 by lia.
  rewrite (Z.log2_unique (Z.pos p) (d - 1)); [lia|lia|].
  replace (Z.succ (d - 1)) with d by lia. exact Hp.
Qed.

End ExactRounding.

(** ** Integers through the cast *)


Lemma pos_digits_range (p : positive) :
  1 <= Z.pos (digits2_pos p) /\
  2 ^ (Z.pos (digits2_pos p) - 1) <= Z.pos p < 2 ^ Z.pos (digits2_pos p).
Proof.
  change (Z.pos (digits2_pos p)) with (Zdigits2 (Z.pos p)).
  rewrite Zdigits2_log2 by lia.
  pose proof (Z.log2_nonneg (Z.pos p)).
  pose proof (Z.log2_spec (Z.pos p) ltac:(lia)) as Hs. unfold Z.succ in Hs.
  replace (Z.log2 (Z.pos p) + 1 - 1) with (Z.log2 (Z.pos p)) by lia. lia.
Qed.

(** An integer of at most 53 bits becomes a double without rounding. *)
Lemma int_round_exact (s : bool) (p : positive) (d : Z) :
  1 <= d <= 53 -> 2 ^ (d - 1) <= Z.pos p < 2 ^ d ->
  exists M, binary_round prec64 emax64 s p 0 = S754_finite s M (d - 53) /\
            Z.pos M = Z.pos p * 2 ^ (53 - d).
Proof.
  intros Hd Hp.
  assert (Hdig : Z.pos (digits2_pos p) = d) by (apply digits2_pos_range; lia).
  assert (Hf : fexp prec64 emax64 (Z.pos (digits2_pos p) + 0) = d - 53).
  { rewrite Hdig. unfold fexp, emin, prec64, emax64. lia. }
  destruct (Z.eq_dec d 53) as [->|Hne].
  - exists p. split; [|simpl; lia].
    rewrite (binary_round_exact_down prec64 emax64 s p 0 (Z.pos p) 0);
      [reflexivity|simpl; lia|lia|rewrite Hf; reflexivity|unfold prec64, emax64; lia].
  - exists (Pos.iter xO p (Z.to_pos (53 - d))). split.
    + rewrite (binary_round_exact_up prec64 emax64 s p 0 (Z.to_pos (53 - d))).
      * f_equal. rewrite Z2Pos.id by lia. lia.
      * rewrite Hf, Z2Pos.id by lia. lia.
      * rewrite Z2Pos.id by lia. unfold prec64, emax64. lia.
    + rewrite pos_iter_xO, Z2Pos.id by lia. reflexivity.
Qed.

(** Through both conversions, an integer of at most 24 bits arrives whole. *)
Lemma small_int_cast (s : bool) (p : positive) (d : Z) :
  1 <= d <= 24 -> 2 ^ (d - 1) <= Z.pos p < 2 ^ d ->
  exists K, double_to_float (binary_round prec64 emax64 s p 0) = S754_finite s K (d - 24) /\
            Z.pos K = Z.pos p * 2 ^ (24 - d).
Proof.
  intros Hd Hp.
  destruct (int_round_exact s p d ltac:(lia) Hp) as (M & -> & HM).
  assert (H2 : 0 < 2 ^ (24 - d)) by (apply Z.pow_pos_nonneg; lia).
  assert (HMk : Z.pos M = Z.pos p * 2 ^ (24 - d) * 2 ^ 29).
  { rewrite HM, <- Z.mul_assoc, <- Z.pow_add_r by lia. do 2 f_equal. lia. }
  assert (HdM : Z.pos (digits2_pos M) = 53).
  { change (Z.pos (digits2_pos M)) with (Zdigits2 (Z.pos M)). rewrite HM.
    rewrite Zdigits2_mul_pow2 by lia. simpl Zdigits2.
    rewrite (digits2_pos_range p d) by lia. lia. }
  exists (Z.to_pos (Z.pos p * 2 ^ (24 - d))). split; [|rewrite Z2Pos.id by nia; reflexivity].
  simpl double_to_float.
  rewrite (binary_round_exact_down prec32 emax32 s M (d - 53)
             (Z.pos p * 2 ^ (24 - d)) 29 HMk ltac:(lia)).
  - f_equal. lia.
  - rewrite HdM. unfold fexp, emin, prec32, emax32. lia.
  - unfold prec32, emax32. lia.
Qed.

Lemma small_int_value (s : bool) (p : positive) :
  Z.pos p < 2 ^ 24 ->
  double_to_int_exact (double_to_float (binary_round prec64 emax64 s p 0))
  = Some (cond_Zopp s (Z.pos p)).
Proof.
  intros Hp. destruct (pos_digits_range p) as [Hd1 Hr].
  pose proof (digits2_pos_bound p 24 ltac:(lia) Hp) as Hd24.
  set (d := Z.pos (digits2_pos p)) in *.
  destruct (small_int_cast s p d ltac:(lia) Hr) as (K & -> & HK).
  assert (H2 : 0 < 2 ^ (24 - d)) by (apply Z.pow_pos_nonneg; lia).
  unfold double_to_int_exact. destruct (Z.leb_spec 0 (d - 24)) as [Hge|Hlt].
  - replace (24 - d) with 0 in HK by lia. replace (d - 24) with 0 by lia.
    rewrite HK. do 2 f_equal. simpl. lia.
  - replace (- (d - 24)) with (24 - d) by lia.
    rewrite HK, Z.mod_mul, Z.div_mul by lia. reflexivity.
Qed.

(** X11: an integer below 2^24 in magnitude reaches the matrix as itself. *)
Theorem small_integers_pass_exactly (z : Z) :
  Z.abs z < 2 ^ 24 ->
  exists x : float32, cell_to_float32 (CInt z) = inr x /\ double_to_int_exact x = Some z.
Proof.
  intros Hz. unfold cell_to_float32.
  rewrite (int_to_double_finite z) by lia.
  exists (double_to_float (int_to_double z)). split; [reflexivity|].
  destruct z as [|p|p]; [reflexivity| |].
  - apply (small_int_value false p). lia.
  - apply (small_int_value true p). lia.
Qed.

(** X12: an integer of [d] bits, [24 <= d <= 53], reaches the matrix as a
    multiple of [2^(d-24)] no further than [2^(d-24)] from it. *)
Theorem large_integers_are_quantised (t d : Z) :
  24 <= d <= 53 -> 2 ^ (d - 1) <= t < 2 ^ d ->
  exists (x : float32) (v : Z),
    cell_to_float32 (CInt t) = inr x /\
    double_to_int_exact x = Some v /\
    (2 ^ (d - 24) | v) /\
    Z.abs (v - t) <= 2 ^ (d - 24).
Proof.
  intros Hd Ht.
  assert (H0 : 0 < 2 ^ (d - 1)) by (apply Z.pow_pos_nonneg; lia).
  destruct t as [|p|p]; try lia.
  assert (Hfin : is_infinity (int_to_double (Z.pos p)) = false).
  { apply int_to_double_finite.
    assert (2 ^ d <= 2 ^ 1023) by (apply Z.pow_le_mono_r; lia). lia. }
  unfold cell_to_float32. rewrite Hfin.
  unfold int_to_double, f64, binary_normalize.
  destruct (int_round_exact false p d ltac:(lia) Ht) as (M & -> & HM).
  simpl double_to_float.
  assert (H2 : 0 < 2 ^ (53 - d)) by (apply Z.pow_pos_nonneg; lia).
  assert (HdM : Z.pos (digits2_pos M) = 53).
  { change (Z.pos (digits2_pos M)) with (Zdigits2 (Z.pos M)). rewrite HM.
    rewrite Zdigits2_mul_pow2 by lia. simpl Zdigits2.
    rewrite (digits2_pos_range p d) by lia. lia. }
  assert (Hf : fexp prec32 emax32 (Z.pos (digits2_pos M) + (d - 53)) = d - 24).
  { rewrite HdM. unfold fexp, emin, prec32, emax32. lia. }
  set (P := 2 ^ (d - 24)).
  assert (HP : 0 < P) by (apply Z.pow_pos_nonneg; lia).
  assert (Hq : Z.shiftr (Z.pos M) (d - 24 - (d - 53)) = Z.pos p / P).
  { rewrite HM, <- Z.shiftl_mul_pow2, Z.shiftr_shiftl_r by lia.
    rewrite Z.shiftr_div_pow2 by lia. unfold P. do 2 f_equal. lia. }
  assert (Hlo : P * (Z.pos p / P) <= Z.pos p) by (apply Z.mul_div_le; lia).
  assert (Hhi : Z.pos p < P * Z.succ (Z.pos p / P)) by (apply Z.mul_succ_div_gt; lia).
  assert (Hqpos : 0 < Z.pos p / P).
  { apply Z.div_str_pos. split; [lia|]. unfold P.
    transitivity (2 ^ (d - 1)); [apply Z.pow_le_mono_r; lia|lia]. }
  set (q := Z.pos p / P) in *.
  destruct (binary_round_neighbours prec32 emax32 false M (d - 53))
    as [(m & -> & Hm)|[(m & -> & Hm)|[_ Hover]]].
  - rewrite Hf. lia.
  - rewrite Hf, Hq. exact Hqpos.
  - rewrite Hf, Hq in *. exists (S754_finite false m (d - 24)), (Z.pos m * P).
    split; [reflexivity|]. split.
    + unfold double_to_int_exact. destruct (Z.leb_spec 0 (d - 24)); [|lia]. reflexivity.
    + split; [apply Z.divide_factor_r|]. unfold Z.succ in Hhi. destruct Hm as [Hm|Hm]; rewrite Hm; nia.
  - rewrite Hf, Hq in *. exists (S754_finite false m (d - 24 + 1)), ((q + 1) * P).
    split; [reflexivity|]. split.
    + unfold double_to_int_exact. destruct (Z.leb_spec 0 (d - 24 + 1)); [|lia].
      simpl cond_Zopp. f_equal. rewrite Z.pow_add_r by lia. fold P. nia.
    + split; [apply Z.divide_factor_r|]. unfold Z.succ in Hhi. nia.
  - rewrite Hf in Hover. unfold prec32, emax32 in Hover. lia.
Qed.

(** X13: a float32 widened to a double, as [tolist] does, and cast back, as
    [astype] does, is the float32 it was. *)
Theorem float32_round_trip (x : float32) :
  is_float32 x = true -> double_to_float (float_to_double x) = x.
Proof.
  destruct x as [s|s| |s m e]; try reflexivity.
  unfold is_float32, valid_binary, bounded, canonical_mantissa. intros Hb.
  apply andb_prop in Hb as [Hc Hle]. apply Z.eqb_eq in Hc. apply Z.leb_le in Hle.
  pose proof (pos_digits_range m) as [Hd1 _].
  set (dm := Z.pos (digits2_pos m)) in *.
  assert (Hdm : dm <= 24 /\ -149 <= e).
  { unfold fexp, emin, prec32, emax32 in Hc. lia. }
  unfold prec32, emax32 in Hle.
  assert (Hf64 : fexp prec64 emax64 (dm + e) = e - Z.pos (Z.to_pos (53 - dm))).
  { rewrite Z2Pos.id by lia. unfold fexp, emin, prec64, emax64. lia. }
  unfold float_to_double.
  rewrite (binary_round_exact_up prec64 emax64 s m e (Z.to_pos (53 - dm)) Hf64)
    by (rewrite Z2Pos.id by lia; unfold prec64, emax64; lia).
  unfold double_to_float.
  rewrite (binary_round_exact_down prec32 emax32 s _ _ (Z.pos m) (53 - dm)).
  - simpl Z.to_pos. f_equal. rewrite Z2Pos.id by lia. lia.
  - rewrite pos_iter_xO, Z2Pos.id by lia. reflexivity.
  - lia.
  - rewrite digits2_pos_iter_xO. fold dm. rewrite Z2Pos.id by lia.
    replace (dm + (53 - dm) + (e - (53 - dm))) with (dm + e) by lia.
    rewrite Hc. lia.
  - rewrite Z2Pos.id by lia. unfold prec32, emax32. lia.
Qed.

Lemma float32_round_trip_witness :
  double_to_float (float_to_double (f32 21 (-1))) = f32 21 (-1).
Proof. apply float32_round_trip. vm_compute. reflexivity. Defined.

Lemma small_integers_pass_exactly_witness :
  exists x : float32, cell_to_float32 (CInt (-1000)) = inr x /\ double_to_int_exact x = Some (-1000).
Proof. apply small_integers_pass_exactly. vm_compute. reflexivity. Defined.

Lemma large_integers_are_quantised_witness :
  exists (x : float32) (v : Z),
    cell_to_float32 (CInt 1700000001) = inr x /\
    double_to_int_exact x = Some v /\
    (2 ^ (31 - 24) | v) /\
    Z.abs (v - 1700000001) <= 2 ^ (31 - 24).
Proof.
  apply large_integers_are_quantised.
  - lia.
  - split; [apply Z.leb_le|apply Z.ltb_lt]; vm_compute; reflexivity.
Defined.

Example timestamp_1700000001 :
  cell_to_float32 (CInt 1700000001) = cell_to_float32 (CInt 1700000000).
Proof. vm_compute. reflexivity. Qed.

(** ** Shape of the matrix and calls of the engine *)

(** X1: an assembled matrix has one row per entry of the sequences and six
    columns in every row. *)
Theorem feature_matrix_shape (input : ModelInput) (M : matrix) :
  assemble input = inr M ->
  length M = length (accelerationY input) /\
  Forall (fun row => length row = 6%nat) M.
Proof.
  intros HM. destruct (assemble_rows input M HM) as (_ & Hlen & Hrows).
  split; [exact Hlen|]. apply Forall_lookup. intros i row Hi.
  rewrite Hrows in Hi. destruct (observation_at input i) as [o|]; [|discriminate].
  simpl in Hi. injection Hi as <-. reflexivity.
Qed.

Lemma feature_matrix_shape_witness :
  length [[f32 1 0; f32 2 0; f32 3 0; f32 1000 0; f32 21 (-1); f32 41 (-1)]]
  = length (accelerationY scenario_input) /\
  Forall (fun row => length row = 6%nat)
    [[f32 1 0; f32 2 0; f32 3 0; f32 1000 0; f32 21 (-1); f32 41 (-1)]].
Proof. apply feature_matrix_shape. vm_compute. reflexivity. Defined.

Lemma predict_calls_run_log (input : ModelInput) (w : World) :
  exists calls, run_log (predict input w).2 = run_log w ++ calls /\ (length calls <= 1)%nat.
Proof.
  rewrite predict_unfold.
  destruct (assemble input) as [e|M] eqn:HA.
  - rewrite (predict_body_assemble_failed input w e HA). simpl.
    exists []. rewrite app_nil_r. split; [reflexivity|simpl; lia].
  - rewrite (predict_body_assembled input w M HA).
    destruct (get_inputs (sess (globals w))) as [|first rest].
    + exists []. simpl. rewrite app_nil_r. split; [reflexivity|simpl; lia].
    + exists [[(name first, M)]]. simpl.
      destruct (run (sess (globals w)) None [(name first, M)]) as [e|[|p ps]];
        split; try reflexivity; simpl; lia.
Qed.

(** X2: one call of [predict] gives [sess.run] at most one feed: the
    assembled matrix under the name of the first input of the session, when
    there is a matrix and an input, and nothing otherwise. *)
Theorem predict_calls_run_at_most_once (input : ModelInput) (w : World) :
  match assemble input, get_inputs (sess (globals w)) with
  | inr M, first :: _ =>
      run_log (predict input w).2 = run_log w ++ [[(name first, M)]]
  | _, _ => run_log (predict input w).2 = run_log w
  end.
Proof.
  rewrite predict_unfold.
  destruct (assemble input) as [e|M] eqn:HA.
  - rewrite (predict_body_assemble_failed input w e HA). reflexivity.
  - rewrite (predict_body_assembled input w M HA).
    destruct (get_inputs (sess (globals w))) as [|first rest]; [reflexivity|].
    simpl. destruct (run (sess (globals w)) None [(name first, M)]) as [e|[|p ps]]; reflexivity.
Qed.

Lemma handle_run_log (req : request) (w : World) :
  exists calls, run_log (handle req w).2 = run_log w ++ calls /\ (length calls <= 1)%nat.
Proof.
  destruct req as [body|]; simpl.
  - destruct (registered POST_predict w);
      [|exists []; rewrite app_nil_r; split; [reflexivity|simpl; lia]].
    destruct (parse_body body) as [errs|input];
      [exists []; rewrite app_nil_r; split; [reflexivity|simpl; lia]|].
    pose proof (predict_calls_run_log input w) as H.
    destruct (predict input w) as [r w']. simpl in *. exact H.
  - destruct (registered GET_root w); exists []; rewrite app_nil_r; split;
      try reflexivity; simpl; lia.
Qed.

(** X3: a running process that takes [n] requests calls the engine at most
    [n] times, and only adds to the record of calls. *)
Theorem requests_bound_engine_calls (reqs : list request) (w : World) :
  exists w' calls,
    (serve_all (Up w) reqs).2 = Up w' /\
    run_log w' = run_log w ++ calls /\
    (length calls <= length reqs)%nat.
Proof.
  revert w. induction reqs as [|req reqs IH]; intros w.
  - exists w, []. rewrite app_nil_r. split; [reflexivity|]. split; [reflexivity|simpl; lia].
  - simpl. destruct (handle_run_log req w) as (c1 & Hc1 & Hl1).
    destruct (handle req w) as [resp w1]. simpl in Hc1.
    destruct (IH w1) as (w' & c2 & Hs & Hc2 & Hl2).
    destruct (serve_all (Up w1) reqs) as [resps p']. simpl in Hs. subst p'.
    exists w', (c1 ++ c2). simpl. split; [reflexivity|]. split.
    + rewrite Hc2, Hc1, app_assoc. reflexivity.
    + rewrite length_app. simpl. lia.
Qed.

(** ** Edges of a request *)

(** X4: a request without observations is not stopped by the handler: the
    matrix has no row and the engine is called with it; what the engine
    answers, or raises, is the result. *)
Theorem empty_batch_reaches_engine (input : ModelInput) (w : World) (first : NodeArg)
    (rest : list NodeArg) :
  accelerationY input = [] -> aligned input ->
  get_inputs (sess (globals w)) = first :: rest ->
  assemble input = inr [] /\
  predict input w =
  (match run (sess (globals w)) None [(name first, [])] with
   | inl e => inl (HTTPException 500 ("Prediction error: " +:+ str_exn e))
   | inr [] => inl (HTTPException 500 "Prediction error: list index out of range")
   | inr (predictions :: _) => inr (JObj [("predictions", tolist predictions)])
   end,
   mkWorld (globals w) (run_log w ++ [[(name first, [])]])).
Proof.
  intros Hay Hal Hin.
  assert (HA : assemble input = inr []).
  { rewrite assemble_unfold, Hay.
    apply all_same_length_frame in Hal. rewrite Hal. reflexivity. }
  split; [exact HA|].
  rewrite predict_unfold, (predict_body_assembled input w [] HA), Hin. simpl.
  destruct (run (sess (globals w)) None [(name first, [])]) as [e|[|p ps]]; reflexivity.
Qed.

Lemma empty_batch_reaches_engine_witness :
  assemble empty_input = inr [] /\
  predict empty_input sample_world =
  (match run (sess (globals sample_world)) None [(name (mkNodeArg "float_input"), [])] with
   | inl e => inl (HTTPException 500 ("Prediction error: " +:+ str_exn e))
   | inr [] => inl (HTTPException 500 "Prediction error: list index out of range")
   | inr (predictions :: _) => inr (JObj [("predictions", tolist predictions)])
   end,
   mkWorld (globals sample_world)
     (run_log sample_world ++ [[(name (mkNodeArg "float_input"), [])]])).
Proof.
  apply (empty_batch_reaches_engine empty_input sample_world (mkNodeArg "float_input") []).
  - reflexivity.
  - unfold aligned. simpl. lia.
  - reflexivity.
Defined.

(** X5: with a session that declares no input the request fails on the index
    before any call of the engine; with an engine that returns no output it
    fails on the index after the one call.  Both are the same 500. *)
Theorem missing_input_or_output_is_index_error (input : ModelInput) (w : World) (M : matrix) :
  assemble input = inr M ->
  (get_inputs (sess (globals w)) = [] ->
   predict input w
   = (inl (HTTPException 500 "Prediction error: list index out of range"), w)) /\
  (forall first rest,
      get_inputs (sess (globals w)) = first :: rest ->
      run (sess (globals w)) None [(name first, M)] = inr [] ->
      predict input w
      = (inl (HTTPException 500 "Prediction error: list index out of range"),
         mkWorld (globals w) (run_log w ++ [[(name first, M)]]))).
Proof.
  intros HA. split.
  - intros Hin. rewrite predict_unfold, (predict_body_assembled input w M HA), Hin. reflexivity.
  - intros first rest Hin Hrun.
    rewrite predict_unfold, (predict_body_assembled input w M HA), Hin. simpl.
    rewrite Hrun. reflexivity.
Qed.

Lemma missing_input_or_output_is_index_error_witness :
  predict scenario_input inputless_world
  = (inl (HTTPException 500 "Prediction error: list index out of range"), inputless_world).
Proof.
  refine (proj1 (missing_input_or_output_is_index_error scenario_input inputless_world
                   [[f32 1 0; f32 2 0; f32 3 0; f32 1000 0; f32 21 (-1); f32 41 (-1)]] _) _).
  - vm_compute. reflexivity.
  - reflexivity.
Defined.

Lemma traverse_cells_error (r : list cell) (e : exn) :
  traverse cell_to_float32 r = inl e ->
  e = OverflowError "int too large to convert to float".
Proof.
  induction r as [|c r IH]; simpl; [discriminate|].
  destruct (cell_to_float32 c) as [e'|y] eqn:Ec.
  - intros [= <-]. destruct c as [x|z]; simpl in Ec; [discriminate|].
    destruct (is_infinity (int_to_double z)); [|discriminate]. congruence.
  - destruct (traverse cell_to_float32 r) as [e'|ys]; [|discriminate].
    intros [= <-]. apply IH. reflexivity.
Qed.

Lemma traverse_rows_error (rows : list (list cell)) :
  Exists (fun r => exists e, traverse cell_to_float32 r = inl e) rows ->
  traverse (traverse cell_to_float32) rows
  = inl (OverflowError "int too large to convert to float").
Proof.
  induction 1 as [r rows [e He]|r rows _ IH]; simpl.
  - rewrite He. rewrite (traverse_cells_error r e He). reflexivity.
  - destruct (traverse cell_to_float32 r) as [e|row] eqn:Er.
    + rewrite (traverse_cells_error r e Er). reflexivity.
    + rewrite IH. reflexivity.
Qed.

(** X6: a timestamp too large for a double, in a request whose sequences are
    aligned, fails the request with the overflow message; the engine is not
    called. *)
Theorem oversized_timestamp_is_refused (input : ModelInput) (w : World) :
  aligned input ->
  Exists (fun t => is_infinity (int_to_double t) = true) (unixTimestamp input) ->
  predict input w
  = (inl (HTTPException 500 "Prediction error: int too large to convert to float"), w).
Proof.
  intros Hal Hex.
  assert (HA : assemble input = inl (OverflowError "int too large to convert to float")).
  { rewrite assemble_unfold.
    pose proof Hal as Hal'. apply all_same_length_frame in Hal'. rewrite Hal'.
    apply traverse_rows_error. apply Exists_exists in Hex as (t & Hin & Ht).
    apply list_elem_of_lookup in Hin as [i Hi].
    assert (Hlt : (i < length (accelerationY input))%nat).
    { apply lookup_lt_Some in Hi. destruct Hal as (_ & _ & H3 & _). lia. }
    destruct (observation_at_aligned input i Hal Hlt) as [o Ho].
    apply Exists_exists.
    exists (row_at (map (fun kc => column_cells kc.2) (frame_data input)) i). split.
    - apply list_elem_of_fmap. exists i. split; [reflexivity|]. apply elem_of_seq. lia.
    - rewrite (row_at_frame input i o Ho).
      assert (Hto : obs_unixTimestamp o = t).
      { unfold observation_at in Ho. rewrite Hi in Ho.
        destruct (accelerationY input !! i); [|discriminate].
        destruct (accelerationZ input !! i); [|discriminate].
        destruct (speedv input !! i); [|discriminate].
        destruct (latitude input !! i); [|discriminate].
        destruct (longitude input !! i); [|discriminate].
        simpl in Ho. injection Ho as <-. reflexivity. }
      exists (OverflowError "int too large to convert to float").
      simpl. rewrite Hto, Ht. reflexivity. }
  rewrite predict_unfold, (predict_body_assemble_failed input w _ HA). reflexivity.
Qed.

Lemma oversized_timestamp_is_refused_witness :
  predict oversized_input sample_world
  = (inl (HTTPException 500 "Prediction error: int too large to convert to float"),
     sample_world).
Proof.
  apply oversized_timestamp_is_refused.
  - unfold aligned. simpl. lia.
  - constructor. vm_compute. reflexivity.
Defined.

(** ** The schema at the boundary *)





Lemma mapM_fmap_id {A : Type} (f : json -> option A) (g : A -> json) (l : list A) :
  (forall x, f (g x) = Some x) -> mapM f (g <$> l) = Some l.
Proof.
  intros H. apply mapM_Some_2.
  induction l as [|x l IH]; constructor; [apply H|exact IH].
Qed.

(** X8: the request object of an input, its members in any order, is
    validated to that very input: floats and integers are taken as they
    are. *)
Theorem typed_body_is_accepted_unchanged (input : ModelInput) (members : list (string * json)) :
  body_members input ≡ₚ members ->
  parse_body (JObj members) = inr input.
Proof.
  intros Hp.
  assert (Hbase : parse_body (JObj (body_members input)) = inr input).
  { unfold body_members, parse_body, ModelInput_validate, validate_field, loads_object. simpl.
    repeat (rewrite lookup_insert_eq || rewrite lookup_insert_ne by discriminate).
    unfold coerce_list.
    rewrite !(mapM_fmap_id coerce_float JFloat) by reflexivity.
    rewrite (mapM_fmap_id coerce_int JInt) by reflexivity.
    destruct input. reflexivity. }
  simpl in *.
  rewrite <- (loads_object_permutation (body_members input) members); [exact Hbase| |exact Hp].
  refine (bool_decide_unpack (NoDup model_fields) _). vm_compute. exact I.
Qed.

Lemma typed_body_is_accepted_unchanged_witness :
  parse_body (JObj (reverse scenario_members)) = inr scenario_input.
Proof.
  apply typed_body_is_accepted_unchanged. symmetry. apply (reverse_Permutation scenario_members).
Defined.

(** ** The root route and the status codes *)

Lemma startup_routes (env : Env) (w : World) :
  startup env = Up w -> app (globals w) = [POST_predict; GET_root].
Proof.
  unfold startup. destruct (InferenceSession_new env _ configured_options); [discriminate|].
  intros [= <-]. reflexivity.
Qed.

(** X9: once the process is up, [GET /] is answered 200 with the fixed
    message after any series of requests, whatever they were and however they
    ended, and leaves the world as it finds it. *)
Theorem root_always_answers (env : Env) (w : World) (reqs : list request) :
  startup env = Up w ->
  exists w',
    (serve_all (Up w) reqs).2 = Up w' /\
    handle GetRoot w'
    = (mkResponse 200 (JObj [("message", JStr "ONNX Model Prediction API")]), w').
Proof.
  intros Hs. destruct (serve_all_up reqs w) as (w' & Hserve & Hg).
  exists w'. rewrite Hserve. split; [reflexivity|].
  simpl. unfold registered. rewrite Hg, (startup_routes env w Hs). reflexivity.
Qed.

Lemma root_always_answers_witness :
  exists w',
    (serve_all (Up sample_world)
       [PostPredict JNull; PostPredict (JObj scenario_members)]).2 = Up w' /\
    handle GetRoot w'
    = (mkResponse 200 (JObj [("message", JStr "ONNX Model Prediction API")]), w').
Proof. apply (root_always_answers sample_env). vm_compute. reflexivity. Defined.



